(** * Recurring-message scheduler and guild reconciler of the Discord bot

    A shallow embedding of [syncCronJobs], its [onTick] callback and
    [syncServers] (src/index.ts, in its successive revisions) together with
    the entity declarations they read (src/database.ts).

    - [JS]        the ECMAScript string primitives the compiler relies on;
    - [Database]  the entities and the admin panel's [availableValues];
    - [Scheduler] the cron tab compiler, the trigger callback and the
                  event-loop semantics of [syncCronJobs];
    - [Guilds]    both revisions of [syncServers]. *)

From stdpp Require Import base list strings.
From Stdlib Require Import Ascii ZArith Lia DecimalString.

Set Default Proof Using "Type".

(** String concatenation is unfolded by [cbn] and [simpl] on literals. *)
#[local] Arguments String.append !_ _ / : simpl nomatch.

(* ================================================================== *)
(** ** ECMAScript primitives *)

Module JS.

(** [p] is a prefix of [s]: the rest of [s] after it. *)
Fixpoint stripPrefix (p s : string) : option string :=
  match p, s with
  | EmptyString, _ => Some s
  | String a p', String b s' =>
      if Ascii.eqb a b then stripPrefix p' s' else None
  | String _ _, EmptyString => None
  end.

(** [StringIndexOf(s, p, 0)], returned as the text before and after the
    first occurrence of [p] in [s]. *)
Fixpoint splitAtFirst (p s : string) : option (string * string) :=
  match stripPrefix p s with
  | Some rest => Some (EmptyString, rest)
  | None =>
      match s with
      | EmptyString => None
      | String c s' =>
          match splitAtFirst p s' with
          | Some (before, after) => Some (String c before, after)
          | None => None
          end
      end
  end.

(** [GetSubstitution] for a string pattern: there are no captures, so only
    [$$], [$&], [$`] and [$'] are special in the replacement text; a [$]
    followed by anything else stands for itself. *)
Fixpoint GetSubstitution (matched before after template : string) : string :=
  match template with
  | EmptyString => EmptyString
  | String "$"%char (String "$"%char r) =>
      String "$"%char (GetSubstitution matched before after r)
  | String "$"%char (String "&"%char r) =>
      matched +:+ GetSubstitution matched before after r
  | String "$"%char (String "`"%char r) =>
      before +:+ GetSubstitution matched before after r
  | String "$"%char (String "'"%char r) =>
      after +:+ GetSubstitution matched before after r
  | String c r => String c (GetSubstitution matched before after r)
  end.

(** [String.prototype.replace(pattern, replacement)] with a string
    pattern: only the first occurrence is replaced. *)
Definition replace (pattern replacement s : string) : string :=
  match splitAtFirst pattern s with
  | None => s
  | Some (before, after) =>
      before +:+ GetSubstitution pattern before after replacement +:+ after
  end.

(** [Number.prototype.toString()] on a natural number: decimal digits,
    no padding. *)
Definition toString (n : nat) : string :=
  NilZero.string_of_uint (Nat.to_uint n).

(** [Array.prototype.includes] on strings. *)
Definition includes (l : list string) (x : string) : bool :=
  existsb (String.eqb x) l.

(** A text free of the two characters that [replace] in a chain of
    substitutions could react to: [$] (replacement patterns) and the
    opening brace of a later placeholder. *)
Fixpoint plain (s : string) : bool :=
  match s with
  | EmptyString => true
  | String c r =>
      negb (Ascii.eqb c "$"%char) && negb (Ascii.eqb c "{"%char) && plain r
  end.

End JS.

(* ================================================================== *)
(** ** Entities (src/database.ts) *)

Module Database.

(** [Server]: the guild id and its display name ([serverId] is unique,
    [name] is not nullable). *)
Record Server := {
  serverId : string;
  name : string
}.

(** [RecurringMessage]; [embedColor] is the one nullable column. *)
Record RecurringMessage := {
  message_id : Z;
  message_serverId : string;
  channelId : string;
  text : string;
  sendAsEmbed : bool;
  embedColor : option string
}.

(** [RecurringMessageTask]: the three schedule columns are text. *)
Record RecurringMessageTask := {
  task_id : Z;
  recurringMessageId : Z;
  dayOfWeek : string;
  utcTimeHour : string;
  utcTimeMinute : string
}.

(** The values the admin panel offers for the three schedule columns
    ([getOptions], case [RecurringMessageTask]). *)
Definition dayOfWeek_availableValues : list string :=
  ["*"; "SUN"; "MON"; "TUE"; "WED"; "THU"; "FRI"; "SAT"].

Definition utcTimeHour_availableValues : list string :=
  map JS.toString (seq 0 24).

Definition utcTimeMinute_availableValues : list string :=
  map JS.toString (seq 0 60).

(** A task entered through the admin panel. *)
Definition availableTask (t : RecurringMessageTask) : Prop :=
  In (dayOfWeek t) dayOfWeek_availableValues /\
  In (utcTimeHour t) utcTimeHour_availableValues /\
  In (utcTimeMinute t) utcTimeMinute_availableValues.

(** [getRepository(RecurringMessage).findOne({ where: { id } })]:
    the row with that primary key, or [null]. *)
Definition findOne (table : list RecurringMessage) (i : Z)
  : option RecurringMessage :=
  List.find (fun m => Z.eqb (message_id m) i) table.

End Database.

(* ================================================================== *)
(** ** The scheduler (src/index.ts, scheduler-bearing revision) *)

Module Scheduler.
Import Database.

(** *** The cron tab compiler *)

Definition cronTab : string := "0 {min} {hour} * * {day}".

Definition cronTabString (task : RecurringMessageTask) : string :=
  JS.replace "{day}" (dayOfWeek task)
    (JS.replace "{hour}" (utcTimeHour task)
       (JS.replace "{min}" (utcTimeMinute task) cronTab)).

(** The six-field text the spec describes. *)
Definition sixFields (minute hour day : string) : string :=
  "0 " +:+ minute +:+ " " +:+ hour +:+ " * * " +:+ day.

(** The fields of a cron specification: its text cut at the spaces. *)
Fixpoint cronFields (s : string) : list string :=
  match s with
  | EmptyString => [EmptyString]
  | String c r =>
      if Ascii.eqb c " "%char then EmptyString :: cronFields r
      else match cronFields r with
           | f :: fs => String c f :: fs
           | [] => [String c EmptyString]
           end
  end.

Fixpoint spaceFree (s : string) : bool :=
  match s with
  | EmptyString => true
  | String c r => negb (Ascii.eqb c " "%char) && spaceFree r
  end.

Definition isDigit (c : ascii) : bool :=
  (48 <=? nat_of_ascii c) && (nat_of_ascii c <=? 57).

Fixpoint allDigits (s : string) : bool :=
  match s with
  | EmptyString => true
  | String c r => isDigit c && allDigits r
  end.

(** Two decimal digits, as a zero-padded hour or minute would be. *)
Definition twoDigits (s : string) : bool :=
  (String.length s =? 2) && allDigits s.


(** *** The trigger callback [onTick] *)

(** What a fire hands to the messaging client. *)
Inductive Dispatch :=
  | SendText (channel content : string)
  | SendEmbed (channel description : string) (color : option string).

(** Why the promise of an [async] callback is rejected. *)
Inductive Failure :=
  | NullRecord       (* TypeError: a property of [null] is read *)
  | UnknownChannel   (* [client.channels.fetch] rejects *)
  | EmbedRefused.    (* [setDescription] or [setColor] throws *)

Inductive Outcome :=
  | Resolved (sends : list Dispatch)
  | Rejected (e : Failure).

(** [client.channels.fetch(id)] resolves for the channels the bot can
    reach and rejects for the others. *)
Definition fetchChannel (channels : list string) (c : string) : option string :=
  if JS.includes channels c then Some c else None.

(** The callback closes over [task] and reads nothing else of it than
    [task.recurringMessageId]. The record comes from [findOne] when the
    callback runs; the [!] after the query is erased at run time, so a
    missing row is the [null] whose [channelId] is read next.

    With [sendAsEmbed] the argument of [channel.send] is built first:
    [new EmbedBuilder().setDescription(text).setColor(embedColor)]. Both
    setters validate and throw, and then [send] is not reached. The
    builder belongs to the messaging library; [embedBuilds] tells for
    which description and colour the two setters return. *)
Definition onTick (embedBuilds : string -> option string -> bool)
    (task : RecurringMessageTask)
    (messages : list RecurringMessage) (channels : list string) : Outcome :=
  match findOne messages (recurringMessageId task) with
  | None => Rejected NullRecord
  | Some recurringMessage =>
      match fetchChannel channels (channelId recurringMessage) with
      | None => Rejected UnknownChannel
      | Some channel =>
          if sendAsEmbed recurringMessage
          then
            if embedBuilds (text recurringMessage)
                           (embedColor recurringMessage)
            then Resolved [SendEmbed channel (text recurringMessage)
                                     (embedColor recurringMessage)]
            else Rejected EmbedRefused
          else Resolved [SendText channel (text recurringMessage)]
      end
  end.

(** *** The job registry and the event loop *)

(** A [CronJob] object: its cron time, the task its [onTick] closes over,
    and whether its timer is armed. *)
Record CronJob := {
  cronTime : string;
  closure : RecurringMessageTask;
  running : bool
}.

(** [interface RecurringMessageTaskCronJob]; [cronJob] is a reference to
    the object, an index into the heap of jobs ever created. *)
Record RecurringMessageTaskCronJob := {
  cronJob : nat;
  taskId : Z
}.

(** Where one call of [syncCronJobs] stands: at [await sleep(2000)],
    at [await ...find({})] before and after the store has evaluated the
    query, or finished (normally, or by an exception out of the loop). *)
Inductive Invocation :=
  | Sleeping (wakeAt : nat)
  | AwaitingFind
  | FindResolved (rows : list RecurringMessageTask)
  | Returned
  | Threw.

Record World := {
  now : nat;                                   (* milliseconds *)
  taskTable : list RecurringMessageTask;
  messageTable : list RecurringMessage;
  channels : list string;
  embedBuilds : string -> option string -> bool;
                                   (* what [EmbedBuilder] takes *)
  heap : list CronJob;
  cronJobs : list RecurringMessageTaskCronJob; (* [let cronJobs] *)
  invocations : list Invocation;
  outbox : list Dispatch;
  rejections : list Failure
}.

Definition settleDelay : nat := 2000.

(** [job.cronJob.stop()] *)
Definition stop (j : CronJob) : CronJob :=
  {| cronTime := cronTime j; closure := closure j; running := false |}.

(** [cronJobs.forEach(job => job.cronJob.stop())] *)
Definition stopAll (registry : list RecurringMessageTaskCronJob)
    (h : list CronJob) : list CronJob :=
  foldl (fun h job => alter stop (cronJob job) h) h registry.

Section EventLoop.

(** [CronJob.from] throws on a cron time it cannot parse; the parser
    belongs to the cron package. *)
Variable validCronTime : string -> bool.

(** The [for (const task of activeRecurringMessageTask)] loop: each task
    gets a started job, pushed onto the registry; an exception of
    [CronJob.from] leaves the loop with what has been pushed so far. *)
Fixpoint scheduleAll (rows : list RecurringMessageTask)
    (h : list CronJob) (registry : list RecurringMessageTaskCronJob)
  : list CronJob * list RecurringMessageTaskCronJob * bool :=
  match rows with
  | [] => (h, registry, true)
  | task :: rest =>
      let cronTabString := cronTabString task in
      if validCronTime cronTabString then
        scheduleAll rest
          (h ++ [{| cronTime := cronTabString; closure := task;
                    running := true |}])
          (registry ++ [{| cronJob := length h;
                           taskId := recurringMessageId task |}])
      else (h, registry, false)
  end.

(** What can happen next in the process: time passes, [syncCronJobs] is
    called, one of its awaits completes, a started job fires, or the admin
    panel writes a row. The three [RecurringMessageTask] writes run the
    entity's [@AfterInsert], [@AfterUpdate] and [@AfterRemove] listeners,
    each of which calls [syncCronJobs()]. *)
Inductive Event :=
  | Elapse (ms : nat)
  | Call
  | TimerFires (i : nat)
  | FindResponds (i : nat)
  | FindReturns (i : nat)
  | Fire (job : nat)
  | InsertTask (t : RecurringMessageTask)
  | UpdateTask (t : RecurringMessageTask)
  | RemoveTask (k : Z)
  | SaveMessage (m : RecurringMessage)
  | RemoveMessage (k : Z).

Definition setInvocation (i : nat) (s : Invocation) (w : World) : World :=
  {| now := now w; taskTable := taskTable w; messageTable := messageTable w;
     channels := channels w;
     embedBuilds := embedBuilds w; heap := heap w; cronJobs := cronJobs w;
     invocations := <[i := s]> (invocations w);
     outbox := outbox w; rejections := rejections w |}.

Definition setRegistry (h : list CronJob)
    (registry : list RecurringMessageTaskCronJob) (w : World) : World :=
  {| now := now w; taskTable := taskTable w; messageTable := messageTable w;
     channels := channels w;
     embedBuilds := embedBuilds w; heap := h; cronJobs := registry;
     invocations := invocations w;
     outbox := outbox w; rejections := rejections w |}.

Definition setTaskTable (rows : list RecurringMessageTask) (w : World)
  : World :=
  {| now := now w; taskTable := rows; messageTable := messageTable w;
     channels := channels w;
     embedBuilds := embedBuilds w; heap := heap w; cronJobs := cronJobs w;
     invocations := invocations w;
     outbox := outbox w; rejections := rejections w |}.

Definition setMessageTable (rows : list RecurringMessage) (w : World)
  : World :=
  {| now := now w; taskTable := taskTable w; messageTable := rows;
     channels := channels w;
     embedBuilds := embedBuilds w; heap := heap w; cronJobs := cronJobs w;
     invocations := invocations w;
     outbox := outbox w; rejections := rejections w |}.

(** [syncCronJobs], one stretch between two awaits at a time (its
    [console.log] lines left out). First, the call itself, up to
    [await sleep(2000)]: a timer is set. *)
Definition syncCronJobs (w : World) : World :=
  {| now := now w; taskTable := taskTable w; messageTable := messageTable w;
     channels := channels w;
     embedBuilds := embedBuilds w; heap := heap w; cronJobs := cronJobs w;
     invocations := invocations w ++ [Sleeping (now w + settleDelay)];
     outbox := outbox w; rejections := rejections w |}.

(** From the end of the sleep to [await ...find({})]:
    [cronJobs.forEach(job => job.cronJob.stop()); cronJobs = [];]
    and the query is sent. *)
Definition syncCronJobs_afterSleep (i : nat) (w : World) : World :=
  setInvocation i AwaitingFind
    (setRegistry (stopAll (cronJobs w) (heap w)) [] w).

(** From the rows of the query to the end: the loop. *)
Definition syncCronJobs_afterFind (i : nat)
    (rows : list RecurringMessageTask) (w : World) : World :=
  let '(h, registry, ok) := scheduleAll rows (heap w) (cronJobs w) in
  setInvocation i (if ok then Returned else Threw) (setRegistry h registry w).

(** The outcome of a fire is sent, or is an unhandled rejection. *)
Definition settle (o : Outcome) (w : World) : World :=
  {| now := now w; taskTable := taskTable w; messageTable := messageTable w;
     channels := channels w;
     embedBuilds := embedBuilds w; heap := heap w; cronJobs := cronJobs w;
     invocations := invocations w;
     outbox := match o with
               | Resolved sends => outbox w ++ sends
               | Rejected _ => outbox w
               end;
     rejections := match o with
                   | Resolved _ => rejections w
                   | Rejected e => rejections w ++ [e]
                   end |}.

Definition step (e : Event) (w : World) : option World :=
  match e with
  | Elapse ms =>
      Some {| now := now w + ms; taskTable := taskTable w;
              messageTable := messageTable w; channels := channels w;
     embedBuilds := embedBuilds w;
              heap := heap w; cronJobs := cronJobs w;
              invocations := invocations w;
              outbox := outbox w; rejections := rejections w |}
  | Call => Some (syncCronJobs w)
  | TimerFires i =>
      (* a timer does not fire before it is due *)
      match invocations w !! i with
      | Some (Sleeping wakeAt) =>
          if wakeAt <=? now w then Some (syncCronJobs_afterSleep i w)
          else None
      | _ => None
      end
  | FindResponds i =>
      (* the query names no order; the rows are taken in table order *)
      match invocations w !! i with
      | Some AwaitingFind =>
          Some (setInvocation i (FindResolved (taskTable w)) w)
      | _ => None
      end
  | FindReturns i =>
      match invocations w !! i with
      | Some (FindResolved rows) => Some (syncCronJobs_afterFind i rows w)
      | _ => None
      end
  | Fire r =>
      (* only a started job fires; the callback is taken in one step: of
         its two awaits the first yields the record everything after it
         uses *)
      match heap w !! r with
      | Some j =>
          if running j
          then Some (settle (onTick (embedBuilds w) (closure j)
                               (messageTable w) (channels w)) w)
          else None
      | None => None
      end
  | InsertTask t => Some (syncCronJobs (setTaskTable (taskTable w ++ [t]) w))
  | UpdateTask t =>
      Some (syncCronJobs (setTaskTable
                    (map (fun r => if Z.eqb (task_id r) (task_id t)
                                   then t else r) (taskTable w)) w))
  | RemoveTask k =>
      Some (syncCronJobs (setTaskTable
                    (List.filter (fun r => negb (Z.eqb (task_id r) k))
                       (taskTable w)) w))
  | SaveMessage m =>
      Some (setMessageTable
              (if existsb (fun r => Z.eqb (message_id r) (message_id m))
                    (messageTable w)
               then map (fun r => if Z.eqb (message_id r) (message_id m)
                                  then m else r) (messageTable w)
               else messageTable w ++ [m]) w)
  | RemoveMessage k =>
      Some (setMessageTable
              (List.filter (fun r => negb (Z.eqb (message_id r) k))
                 (messageTable w)) w)
  end.

(** A schedule of events, run from a state; [None] when an event is not
    enabled where the schedule puts it. *)
Fixpoint run (es : list Event) (w : World) : option World :=
  match es with
  | [] => Some w
  | e :: rest =>
      match step e w with
      | Some w' => run rest w'
      | None => None
      end
  end.

(** One call of [syncCronJobs] taken from start to end with nothing else
    happening in between; [i] is the number of calls made before it. *)
Definition pass (i : nat) : list Event :=
  [Call; Elapse settleDelay; TimerFires i; FindResponds i; FindReturns i].

End EventLoop.

(** Closed forms of the loop: the job a task gets, its registry entry,
    and the tasks the loop reaches before [CronJob.from] throws. *)
Definition jobOf (task : RecurringMessageTask) : CronJob :=
  {| cronTime := cronTabString task; closure := task; running := true |}.

Definition entryOf (base n : nat) (task : RecurringMessageTask)
  : RecurringMessageTaskCronJob :=
  {| cronJob := base + n; taskId := recurringMessageId task |}.

Fixpoint accepted (validCronTime : string -> bool)
    (rows : list RecurringMessageTask) : list RecurringMessageTask :=
  match rows with
  | [] => []
  | task :: rest =>
      if validCronTime (cronTabString task)
      then task :: accepted validCronTime rest else []
  end.

(** The state a pass that runs alone ends in. *)
Definition afterPass (validCronTime : string -> bool) (w : World)
  : World :=
  {| now := now w + settleDelay; taskTable := taskTable w;
     messageTable := messageTable w; channels := channels w;
     embedBuilds := embedBuilds w;
     heap := stopAll (cronJobs w) (heap w)
             ++ map jobOf (accepted validCronTime (taskTable w));
     cronJobs := imap (entryOf (length (heap w)))
                   (accepted validCronTime (taskTable w));
     invocations :=
       invocations w
       ++ [if forallb (fun t => validCronTime (cronTabString t)) (taskTable w)
           then Returned else Threw];
     outbox := outbox w; rejections := rejections w |}.

(** The registry holds a reference to job [r]. *)
Definition registered (r : nat)
    (registry : list RecurringMessageTaskCronJob) : bool :=
  existsb (fun job => Nat.eqb (cronJob job) r) registry.







(** Section 7 (b) of the spec, for a parser [validCronTime]: when one
    stored definition is refused, a pass that runs alone leaves a job for
    each of the others. *)
Definition omitsOnlyTheMalformed (validCronTime : string -> bool) : Prop :=
  forall w w',
    length (List.filter (fun t => negb (validCronTime (cronTabString t)))
              (taskTable w)) = 1 ->
    run validCronTime (pass (length (invocations w))) w = Some w' ->
    map taskId (cronJobs w')
    = map recurringMessageId
        (List.filter (fun t => validCronTime (cronTabString t)) (taskTable w)).

(** The trigger as section 4.1 words it: six fields, hour and minute
    zero-padded to two digits, the day of week a name or the wildcard. *)
Definition zeroPaddedTrigger (task : RecurringMessageTask) : Prop :=
  exists sec minute hour dayOfMonth month day,
    cronFields (cronTabString task)
    = [sec; minute; hour; dayOfMonth; month; day]
    /\ twoDigits minute = true /\ twoDigits hour = true
    /\ In day dayOfWeek_availableValues.

(** A cron parser to run the event loop with: it accepts the six-field
    cron times whose minute, hour and day of week are values of the admin
    panel, and nothing else. The parser of the cron package accepts more
    than that, but like this one it throws on a day of week that is not
    a name, a number or a wildcard. *)
Definition panelCronTime (s : string) : bool :=
  match cronFields s with
  | [sec; minute; hour; dayOfMonth; month; day] =>
      String.eqb sec "0"
      && JS.includes utcTimeMinute_availableValues minute
      && JS.includes utcTimeHour_availableValues hour
      && String.eqb dayOfMonth "*" && String.eqb month "*"
      && JS.includes dayOfWeek_availableValues day
  | _ => false
  end.

(** An embed builder to run the event loop with: it takes a description
    of 1 to 4096 characters, the bounds [setDescription] checks, with no
    colour or a colour written as [#] and six hexadecimal digits, the form
    of the column's default. The builder of the library resolves more
    colours than that, but like this one it throws on an empty
    description. *)
Definition isHexDigit (c : ascii) : bool :=
  isDigit c
  || ((65 <=? nat_of_ascii c) && (nat_of_ascii c <=? 70))
  || ((97 <=? nat_of_ascii c) && (nat_of_ascii c <=? 102)).

Fixpoint allHexDigits (s : string) : bool :=
  match s with
  | EmptyString => true
  | String c r => isHexDigit c && allHexDigits r
  end.

Definition hexEmbed (description : string) (color : option string) : bool :=
  (1 <=? String.length description)
  && (String.length description <=? 4096)
  && match color with
     | None => true
     | Some (String "#" digits) =>
         (String.length digits =? 6) && allHexDigits digits
     | Some _ => false
     end.

End Scheduler.

(* ================================================================== *)
(** ** Guild reconciliation ([syncServers]) *)

Module Guilds.
Import Database.

(** An entry of [client.guilds.cache]. *)
Record Guild := {
  guild_id : string;
  guild_name : string
}.

(** An entry of [client.channels.cache]. *)
Record Channel := {
  channel_id : string;
  isTextBased : bool
}.

(** The statements [syncServers] sends to the store. *)
Inductive Write :=
  | InsertServer (id : string) (name : option string)
  | UpdateServer (id : string) (name : option string)
  | DeleteServer (id : string)
  | DeleteKeywords (id : string)
  | DeleteWhitelistedEmojis (id : string).

(** Everything [syncServers] sets off after it has read the stored
    servers. None of it is awaited in the revision that introduces the
    scheduler; the last revision awaits the inserts. *)
Inductive Effect :=
  | Store (w : Write)
  | SyncCronJobs
  | FetchMessages (channel : string) (limit : nat).

(** [client.guilds.cache.get(id)?.name] *)
Definition guildName (guilds : list Guild) (id : string) : option string :=
  match List.find (fun g => String.eqb (guild_id g) id) guilds with
  | Some g => Some (guild_name g)
  | None => None
  end.

(** [client.guilds.cache.map(guild => guild.id)] *)
Definition serversIds (guilds : list Guild) : list string :=
  map guild_id guilds.

(** [serversIds.filter(id =>
       !storedServers.map(server => server.serverId).includes(id))] *)
Definition newlyCreatedServerIds (guilds : list Guild)
    (storedServers : list Server) : list string :=
  List.filter
    (fun id => negb (JS.includes (map serverId storedServers) id))
    (serversIds guilds).

Definition insertNew (guilds : list Guild) (storedServers : list Server)
  : list Effect :=
  map (fun id => Store (InsertServer id (guildName guilds id)))
      (newlyCreatedServerIds guilds storedServers).

(** [client.channels.cache.forEach(...)]: the 100 latest messages of
    every text-based channel are fetched. *)
Definition warmUp (channels : list Channel) : list Effect :=
  map (fun c => FetchMessages (channel_id c) 100)
      (List.filter isTextBased channels).

(** [syncServers] of the scheduler-bearing revisions. *)
Definition syncServers (guilds : list Guild) (channels : list Channel)
    (storedServers : list Server) : list Effect :=
  insertNew guilds storedServers ++ [SyncCronJobs] ++ warmUp channels.

Module Initial.

(** The body of [for (const server of storedServers)] in the first
    revision. *)
Definition reconcile (guilds : list Guild) (server : Server) : list Effect :=
  let id := serverId server in
  if negb (JS.includes (serversIds guilds) id) then
    [Store (DeleteKeywords id); Store (DeleteWhitelistedEmojis id);
     Store (DeleteServer id)]
  else [Store (UpdateServer id (guildName guilds id))].

(** [syncServers] of the first revision, before the scheduler. *)
Definition syncServers (guilds : list Guild) (channels : list Channel)
    (storedServers : list Server) : list Effect :=
  flat_map (reconcile guilds) storedServers
  ++ insertNew guilds storedServers ++ warmUp channels.

End Initial.

(** The storage writes among the effects, in the order they are sent. *)
Definition writes (effects : list Effect) : list Write :=
  flat_map (fun e => match e with Store w => [w] | _ => [] end) effects.

(** The [Server] table under one statement. An insert is refused when the
    [serverId] is taken (unique column) or the name is missing (the
    column is not nullable); an update without a value changes nothing;
    the deletes of dependent rows do not touch this table. *)
Definition applyWrite (table : list Server) (w : Write) : list Server :=
  match w with
  | InsertServer id (Some n) =>
      if JS.includes (map serverId table) id then table
      else table ++ [{| serverId := id; name := n |}]
  | InsertServer _ None => table
  | UpdateServer id (Some n) =>
      map (fun r => if String.eqb (serverId r) id
                    then {| serverId := serverId r; name := n |} else r)
          table
  | UpdateServer _ None => table
  | DeleteServer id =>
      List.filter (fun r => negb (String.eqb (serverId r) id)) table
  | DeleteKeywords _ | DeleteWhitelistedEmojis _ => table
  end.

(** The table once the statements of a call have been carried out, in
    the order they were sent. *)
Definition commit (table : list Server) (effects : list Effect)
  : list Server :=
  foldl applyWrite table (writes effects).

(** What a second call sends to the store when it follows a first one
    whose statements have been carried out, the guilds being the same. *)
Definition secondCallWrites
    (sync : list Guild -> list Channel -> list Server -> list Effect)
    (guilds : list Guild) (channels : list Channel)
    (storedServers : list Server) : list Write :=
  writes (sync guilds channels
            (commit storedServers (sync guilds channels storedServers))).

(** A stored row under the name its guild has now. *)
Definition relabel (guilds : list Guild) (r : Server) : Server :=
  match guildName guilds (serverId r) with
  | Some n => {| serverId := serverId r; name := n |}
  | None => r
  end.

(** What the loop of the first revision makes of a row once it has gone
    through the stored servers with the ids [seen]: rows of guilds the bot
    has left are deleted, the others relabelled. *)
Definition reconciled (guilds : list Guild) (seen : list string) (r : Server)
  : option Server :=
  if JS.includes seen (serverId r) then
    if JS.includes (serversIds guilds) (serverId r)
    then Some (relabel guilds r) else None
  else Some r.

(** A row of a guild the bot is in, under that guild's name. *)
Definition upToDate (guilds : list Guild) (r : Server) : Prop :=
  JS.includes (serversIds guilds) (serverId r) = true
  /\ guildName guilds (serverId r) = Some (name r).

Definition isInsert (w : Write) : bool :=
  match w with InsertServer _ _ => true | _ => false end.

Definition isUpdate (w : Write) : bool :=
  match w with UpdateServer _ _ => true | _ => false end.

End Guilds.

(* ================================================================== *)
(** ** Concrete data: the Monday stand-up *)

Module Scenario.
Import Database Scheduler Guilds.

Definition standup : RecurringMessage :=
  {| message_id := 7; message_serverId := "guild-A"; channelId := "general";
     text := "Standup"; sendAsEmbed := false; embedColor := Some "#f7981d" |}.

Definition edited : RecurringMessage :=
  {| message_id := 7; message_serverId := "guild-A"; channelId := "general";
     text := "Standup at ten"; sendAsEmbed := false;
     embedColor := Some "#f7981d" |}.


(** The same with its text emptied. *)
Definition blank : RecurringMessage :=
  {| message_id := 7; message_serverId := "guild-A"; channelId := "general";
     text := EmptyString; sendAsEmbed := true;
     embedColor := Some "#f7981d" |}.

Definition monday : RecurringMessageTask :=
  {| task_id := 1; recurringMessageId := 7; dayOfWeek := "MON";
     utcTimeHour := "9"; utcTimeMinute := "0" |}.

Definition friday : RecurringMessageTask :=
  {| task_id := 2; recurringMessageId := 7; dayOfWeek := "FRI";
     utcTimeHour := "17"; utcTimeMinute := "30" |}.

(** A row whose day of week was not entered through the panel. *)
Definition someday : RecurringMessageTask :=
  {| task_id := 3; recurringMessageId := 7; dayOfWeek := "SOMEDAY";
     utcTimeHour := "9"; utcTimeMinute := "0" |}.

(** The process with the stand-up stored and nothing scheduled yet. *)
Definition fresh (rows : list RecurringMessageTask) : World :=
  {| now := 0; taskTable := rows; messageTable := [standup];
     channels := ["general"];
     embedBuilds := hexEmbed; heap := []; cronJobs := [];
     invocations := []; outbox := []; rejections := [] |}.

(** The same process with the Monday job of an earlier pass running. *)
Definition scheduled : World :=
  {| now := 3000; taskTable := [monday]; messageTable := [standup];
     channels := ["general"];
     embedBuilds := hexEmbed;
     heap := [{| cronTime := "0 0 9 * * MON"; closure := monday;
                 running := true |}];
     cronJobs := [{| cronJob := 0; taskId := 7 |}];
     invocations := [Returned]; outbox := []; rejections := [] |}.

(** The job is still running, the message it names is gone. *)
Definition orphaned : World := setMessageTable [] scheduled.

(** Two calls of [syncCronJobs] made within the same two seconds, the
    timer of the second firing while the first awaits its query. *)
Definition overlapped : list Event :=
  [Call; Call; Elapse settleDelay;
   TimerFires 0; FindResponds 0; TimerFires 1; FindResponds 1;
   FindReturns 0; FindReturns 1].

Definition guildA : Guild := {| guild_id := "A"; guild_name := "Alpha" |}.
Definition guildB : Guild := {| guild_id := "B"; guild_name := "Beta" |}.
Definition guildC : Guild := {| guild_id := "C"; guild_name := "Gamma" |}.

Definition storedA : Server := {| serverId := "A"; name := "Alpha" |}.
Definition storedB : Server := {| serverId := "B"; name := "Beta" |}.

End Scenario.

(* ================================================================== *)
(** ** What the registry keeps (statements about [syncCronJobs]) *)

Module Registry.
Import Database Scheduler.

(** Every job whose timer is armed is referred to by the registry. *)
Definition runningAreRegistered (w : World) : Prop :=
  forall r j, heap w !! r = Some j -> running j = true ->
    registered r (cronJobs w) = true.

(** Every reference of the registry points at a job that exists. *)
Definition registryInHeap (w : World) : Prop :=
  forall job, In job (cronJobs w) -> cronJob job < length (heap w).

(** Some armed job was made for the task row [k]. *)
Definition runningFor (k : Z) (w : World) : Prop :=
  exists r j, heap w !! r = Some j /\ running j = true
              /\ task_id (closure j) = k.

(** No job is armed. *)
Definition silent (w : World) : Prop :=
  forall r j, heap w !! r = Some j -> running j = false.

(** The event that runs the loop of a call. *)
Definition pushes (e : Event) : bool :=
  match e with
  | FindReturns _ => true
  | _ => false
  end.

(** A write of the panel followed by the call its listener makes, that
    call running alone to its end; [i] is the number of calls made
    before. *)
Definition thenPass (e : Event) (i : nat) : list Event :=
  [e; Elapse settleDelay; TimerFires i; FindResponds i; FindReturns i].

(** The registry two overlapping calls leave for the Monday task: two
    armed jobs. *)
Definition doubled : World :=
  {| now := 2000; taskTable := [Scenario.monday];
     messageTable := [Scenario.standup]; channels := ["general"];
     embedBuilds := hexEmbed;
     heap := [jobOf Scenario.monday; jobOf Scenario.monday];
     cronJobs := [{| cronJob := 0; taskId := 7 |};
                  {| cronJob := 1; taskId := 7 |}];
     invocations := [Returned; Returned]; outbox := []; rejections := [] |}.

(** The Monday job running and a second call whose sleep is over. *)
Definition due : World :=
  {| now := 3000; taskTable := [Scenario.monday];
     messageTable := [Scenario.standup]; channels := ["general"];
     embedBuilds := hexEmbed;
     heap := [jobOf Scenario.monday];
     cronJobs := [{| cronJob := 0; taskId := 7 |}];
     invocations := [Returned; Sleeping 3000];
     outbox := []; rejections := [] |}.

(** The Monday task moved to Tuesday 10:30. *)
Definition tuesday : RecurringMessageTask :=
  {| task_id := 1; recurringMessageId := 7; dayOfWeek := "TUE";
     utcTimeHour := "10"; utcTimeMinute := "30" |}.

End Registry.

(* ================================================================== *)
(** ** Message and reaction moderation (src/index.ts) *)

Module Moderation.

(** *** More ECMAScript

    Texts are sequences of characters of one code unit each, as the
    texts of commands and keywords are. *)

(** [s.startsWith(p)] *)
Definition startsWith (s p : string) : bool :=
  match JS.stripPrefix p s with
  | Some _ => true
  | None => false
  end.

(** [s.slice(start)] for a start that is not negative. *)
Fixpoint slice (start : nat) (s : string) : string :=
  match start, s with
  | 0, _ => s
  | S n, String _ r => slice n r
  | S _, EmptyString => EmptyString
  end.

(** [s.split(/ +/)]: the text is cut at every maximal run of spaces, so
    a text that begins (ends) with a space has an empty first (last)
    piece, and the empty text has the one piece [""]. [inRun] says that
    the character before was a space of the run being skipped. *)
Fixpoint splitFrom (inRun : bool) (s : string) : list string :=
  match s with
  | EmptyString => [EmptyString]
  | String c r =>
      if Ascii.eqb c " "%char then
        if inRun then splitFrom true r else EmptyString :: splitFrom true r
      else
        match splitFrom false r with
        | piece :: pieces => String c piece :: pieces
        | [] => [String c EmptyString]
        end
  end.

Definition splitSpaces (s : string) : list string := splitFrom false s.

(** [pieces.join(sep)] *)
Fixpoint join (sep : string) (pieces : list string) : string :=
  match pieces with
  | [] => EmptyString
  | [p] => p
  | p :: rest => p +:+ sep +:+ join sep rest
  end.

(** The line feed of the template literals. *)
Definition nl : string := String (ascii_of_nat 10) EmptyString.

(** *** Entities *)

(** [Keyword] *)
Record Keyword := {
  kind : string;
  text : string;
  channelId : string;
  serverId : string
}.

(** [WhitelistedStaffRole] *)
Record WhitelistedStaffRole := {
  roleId : string;
  role_serverId : string
}.

(** [WhitelistedEmoji] with its [server] relation loaded. The last
    revision reads the same two things of a [BlacklistedEmoji]. *)
Record WhitelistedEmoji := {
  emojiUnicodeOrId : string;
  server : Database.Server
}.

(** What the last revision reads of a stored [Server]. *)
Record ServerSettings := {
  settings_serverId : string;
  blacklistModeEnabled : bool
}.

(** What the handlers read of a message. *)
Record Message := {
  author_bot : bool;
  author_username : string;
  content : string;
  message_channelId : string;
  message_guildId : option string;
  member_roles : list string
}.

(** What the handler reads of a reaction. *)
Record Reaction := {
  reaction_guildId : option string;
  emoji_id : option string;
  emoji_name : string
}.

(** What a handler does to the platform. *)
Inductive Action :=
  | DeleteMessage
  | SendToAuthor (body : string)
  | Run (commandName : string)
  | RemoveReaction.

(** A value used as a condition: [undefined], [null] and the empty text
    are false. *)
Definition truthy (v : option string) : bool :=
  match v with
  | Some s => negb (String.eqb s EmptyString)
  | None => false
  end.

(** *** [client.on('messageCreate', ...)] *)

(** [getRepository(Keyword).find({ where: { channelId, kind:
    'startswith' } })] *)
Definition findKeywords (table : list Keyword) (channel : string)
  : list Keyword :=
  List.filter
    (fun k => String.eqb (channelId k) channel
              && String.eqb (kind k) "startswith") table.

(** [keywords.length > 0 &&
     keywords.every(key => !message.content.startsWith(key.text))] *)
Definition noneMatch (keywords : list Keyword) (m : Message) : bool :=
  (0 <? length keywords)
  && forallb (fun key => negb (startsWith (content m) (text key))) keywords.

(** The direct message that follows a deletion. *)
Definition notice (keywords : list Keyword) (m : Message) : string :=
  author_username m
  +:+ ", your message has been deleted. Every message in the <#"
  +:+ message_channelId m
  +:+ "> channel must start with one of these terms:" +:+ nl +:+ nl
  +:+ join nl (map (fun key => "- `" +:+ text key +:+ "`") keywords)
  +:+ "." +:+ nl +:+ nl +:+ "Otherwise, the message will be removed.".

(** From [if (!process.env.COMMAND_PREFIX) return;] to the end of the
    handler. [COMMAND_PREFIX] is the variable of the environment and
    [messageCommands] the names that have a run function (the loader is
    src/handlers/commands.ts). *)
Definition dispatch (COMMAND_PREFIX : option string)
    (messageCommands : list string) (m : Message) : list Action :=
  if negb (truthy COMMAND_PREFIX) then []
  else
    let prefix := default EmptyString COMMAND_PREFIX in
    let args := splitSpaces (slice (String.length prefix) (content m)) in
    match args with
    | [] => []
    | commandName :: _ =>
        if negb (truthy (Some commandName)) then []
        else if JS.includes messageCommands commandName
             then [Run commandName] else []
    end.

(** The handler of the revision that introduces the scheduler. *)
Definition messageCreate (COMMAND_PREFIX : option string)
    (messageCommands : list string) (keywordTable : list Keyword)
    (m : Message) : list Action :=
  if author_bot m then []
  else
    let keywords := findKeywords keywordTable (message_channelId m) in
    if noneMatch keywords m
    then [DeleteMessage; SendToAuthor (notice keywords m)]
    else dispatch COMMAND_PREFIX messageCommands m.

(** *** [client.on('messageReactionAdd', ...)] *)

(** [reaction.emoji.id ? `<:${name}:${id}>` : reaction.emoji.name] *)
Definition emojiKey (r : Reaction) : string :=
  if truthy (emoji_id r)
  then "<:" +:+ emoji_name r +:+ ":" +:+ default EmptyString (emoji_id r)
       +:+ ">"
  else emoji_name r.

(** [rows.filter(e => e.server.serverId === guildId)] *)
Definition ofGuild (rows : list WhitelistedEmoji) (guild : string)
  : list WhitelistedEmoji :=
  List.filter (fun e => String.eqb (Database.serverId (server e)) guild) rows.

(** [rows.find(e => e.emojiUnicodeOrId === emoji)] as a condition. *)
Definition listed (rows : list WhitelistedEmoji) (emoji : string) : bool :=
  existsb (fun e => String.eqb (emojiUnicodeOrId e) emoji) rows.

(** The handler of the revision that introduces the scheduler. *)
Definition messageReactionAdd (whitelist : list WhitelistedEmoji)
    (r : Reaction) : list Action :=
  if negb (truthy (reaction_guildId r)) then []
  else
    let guild := default EmptyString (reaction_guildId r) in
    if negb (listed (ofGuild whitelist guild) (emojiKey r))
    then [RemoveReaction] else [].

Module Latest.

(** [message.member.roles.cache.some(role =>
       whitelistedRoles.map(r => r.roleId).includes(role.id))] *)
Definition hasRole (whitelistedRoles : list WhitelistedStaffRole)
    (m : Message) : bool :=
  existsb (fun role => JS.includes (map roleId whitelistedRoles) role)
          (member_roles m).

(** The handler of the last revision: messages outside a guild are left
    alone, and members with a whitelisted staff role are not held to the
    keywords. The array of roles is always truthy, so its test is not
    modelled. *)
Definition messageCreate (COMMAND_PREFIX : option string)
    (messageCommands : list string) (keywordTable : list Keyword)
    (whitelistedRoles : list WhitelistedStaffRole) (m : Message)
  : list Action :=
  if author_bot m || negb (truthy (message_guildId m)) then []
  else
    let keywords := findKeywords keywordTable (message_channelId m) in
    if negb (hasRole whitelistedRoles m) && noneMatch keywords m
    then [DeleteMessage; SendToAuthor (notice keywords m)]
    else dispatch COMMAND_PREFIX messageCommands m.

(** [getRepository(Server).findOne({ where: { serverId } })] *)
Definition findServer (servers : list ServerSettings) (guild : string)
  : option ServerSettings :=
  List.find (fun s => String.eqb (settings_serverId s) guild) servers.

(** The handler of the last revision: a server in blacklist mode loses
    the reactions on its blacklist, any other server (one that is not
    stored too) the reactions that are not on its whitelist. *)
Definition messageReactionAdd (servers : list ServerSettings)
    (whitelist blacklist : list WhitelistedEmoji) (r : Reaction)
  : list Action :=
  if negb (truthy (reaction_guildId r)) then []
  else
    let guild := default EmptyString (reaction_guildId r) in
    let blacklistMode :=
      match findServer servers guild with
      | Some s => blacklistModeEnabled s
      | None => false
      end in
    if blacklistMode then
      if listed (ofGuild blacklist guild) (emojiKey r)
      then [RemoveReaction] else []
    else
      if negb (listed (ofGuild whitelist guild) (emojiKey r))
      then [RemoveReaction] else [].

End Latest.

End Moderation.

(* ================================================================== *)
(** * Properties *)

Import Database Scheduler.

(** ** Strings *)

Lemma append_assoc (a b c : string) : (a +:+ b) +:+ c = a +:+ (b +:+ c).
Proof. induction a as [|x a IH]; cbn; [reflexivity | now f_equal]. Qed.

Lemma append_empty (a : string) : a +:+ "" = a.
Proof. induction a as [|x a IH]; cbn; [reflexivity | now f_equal]. Qed.

Lemma stripPrefix_append (p r : string) : JS.stripPrefix p (p +:+ r) = Some r.
Proof.
  induction p as [|a p IH]; simpl; [reflexivity |].
  now rewrite Ascii.eqb_refl.
Qed.

Lemma plain_append (a b : string) :
  JS.plain (a +:+ b) = JS.plain a && JS.plain b.
Proof.
  induction a as [|x a IH]; cbn; [reflexivity |].
  rewrite IH. now rewrite andb_assoc.
Qed.

(** A replacement text without [$] is inserted verbatim. *)
Lemma GetSubstitution_plain (m b a t : string) :
  JS.plain t = true -> JS.GetSubstitution m b a t = t.
Proof.
  induction t as [|c t IH]; simpl; [reflexivity |].
  intros H. apply andb_prop in H as [H Ht]. apply andb_prop in H as [Hd _].
  rewrite (IH Ht).
  destruct (Ascii.eqb_spec c "$"%char) as [->|Hne]; [discriminate |].
  destruct c as [[] [] [] [] [] [] [] []]; try reflexivity.
  now contradiction Hne.
Qed.

(** The first opening brace after a brace-free prefix starts the first
    occurrence of any pattern that begins with a brace. *)
Lemma splitAtFirst_placeholder (p pre rest : string) :
  JS.plain pre = true ->
  JS.splitAtFirst (String "{"%char p) (pre +:+ String "{"%char (p +:+ rest))
  = Some (pre, rest).
Proof.
  induction pre as [|c pre IH]; intros Hp.
  - cbn [String.append JS.splitAtFirst JS.stripPrefix].
    rewrite Ascii.eqb_refl, stripPrefix_append. reflexivity.
  - cbn [JS.plain] in Hp. apply andb_prop in Hp as [Hc Hp].
    apply andb_prop in Hc as [_ Hb]. apply negb_true_iff in Hb.
    cbn [String.append JS.splitAtFirst JS.stripPrefix].
    rewrite Ascii.eqb_sym, Hb. now rewrite (IH Hp).
Qed.

(** Replacing a placeholder that follows a brace-free prefix by a plain
    text puts that text in its place. *)
Lemma replace_placeholder (p pre rest v : string) :
  JS.plain pre = true -> JS.plain v = true ->
  JS.replace (String "{"%char p) v (pre +:+ String "{"%char (p +:+ rest))
  = pre +:+ v +:+ rest.
Proof.
  intros Hpre Hv. unfold JS.replace.
  rewrite (splitAtFirst_placeholder p pre rest Hpre).
  now rewrite (GetSubstitution_plain _ _ _ _ Hv).
Qed.


(** ** The cron tab compiler *)

Lemma cronTabString_plain (task : RecurringMessageTask) :
  JS.plain (utcTimeMinute task) = true ->
  JS.plain (utcTimeHour task) = true ->
  JS.plain (dayOfWeek task) = true ->
  cronTabString task
  = sixFields (utcTimeMinute task) (utcTimeHour task) (dayOfWeek task).
Proof.
  intros Hm Hh Hd. unfold cronTabString, cronTab, sixFields.
  set (m := utcTimeMinute task) in *. set (h := utcTimeHour task) in *.
  set (d := dayOfWeek task) in *.
  change "0 {min} {hour} * * {day}"
    with ("0 " +:+ String "{"%char ("min}" +:+ " {hour} * * {day}")).
  rewrite replace_placeholder by (reflexivity || assumption).
  replace ("0 " +:+ m +:+ " {hour} * * {day}")
    with (("0 " +:+ m +:+ " ") +:+ String "{"%char ("hour}" +:+ " * * {day}"))
    by (now rewrite !append_assoc).
  rewrite replace_placeholder;
    [| now rewrite !plain_append, Hm | assumption].
  replace (("0 " +:+ m +:+ " ") +:+ h +:+ " * * {day}")
    with (("0 " +:+ m +:+ " " +:+ h +:+ " * * ")
            +:+ String "{"%char ("day}" +:+ ""))
    by (now rewrite !append_assoc).
  rewrite replace_placeholder;
    [| now rewrite !plain_append, Hm, Hh | assumption].
  now rewrite !append_assoc, append_empty.
Qed.

Lemma cronFields_field (a rest : string) :
  spaceFree a = true ->
  cronFields (a +:+ String " "%char rest) = a :: cronFields rest.
Proof.
  induction a as [|c a IH]; intros Ha.
  - reflexivity.
  - cbn [spaceFree] in Ha. apply andb_prop in Ha as [Hc Ha].
    apply negb_true_iff in Hc.
    cbn [String.append cronFields]. now rewrite Hc, (IH Ha).
Qed.

Lemma cronFields_last (a : string) :
  spaceFree a = true -> cronFields a = [a].
Proof.
  induction a as [|c a IH]; intros Ha; [reflexivity |].
  cbn [spaceFree] in Ha. apply andb_prop in Ha as [Hc Ha].
  apply negb_true_iff in Hc. cbn [cronFields]. now rewrite Hc, (IH Ha).
Qed.

Lemma cronFields_sixFields (m h d : string) :
  spaceFree m = true -> spaceFree h = true -> spaceFree d = true ->
  cronFields (sixFields m h d) = ["0"; m; h; "*"; "*"; d].
Proof.
  intros Hm Hh Hd. unfold sixFields.
  change ("0 " +:+ m +:+ " " +:+ h +:+ " * * " +:+ d)
    with ("0" +:+ String " "%char (m +:+ String " "%char (h +:+
            String " "%char ("*" +:+ String " "%char ("*" +:+
              String " "%char d))))).
  rewrite !cronFields_field by (reflexivity || assumption).
  now rewrite (cronFields_last d Hd).
Qed.


Lemma cronTabString_panel (task : RecurringMessageTask) :
  availableTask task ->
  JS.plain (utcTimeMinute task) = true /\ JS.plain (utcTimeHour task) = true
  /\ JS.plain (dayOfWeek task) = true /\ spaceFree (utcTimeMinute task) = true
  /\ spaceFree (utcTimeHour task) = true /\ spaceFree (dayOfWeek task) = true.
Proof.
  assert (Hall : forall l,
            forallb (fun s => JS.plain s && spaceFree s) l = true ->
            forall s, In s l -> JS.plain s = true /\ spaceFree s = true).
  { intros l Hl s Hs. rewrite forallb_forall in Hl.
    now apply andb_prop, Hl. }
  intros (Hd & Hh & Hm).
  apply Hall in Hd; [| vm_compute; reflexivity].
  apply Hall in Hh; [| vm_compute; reflexivity].
  apply Hall in Hm; [| vm_compute; reflexivity].
  tauto.
Qed.

Lemma toString_one_digit (n : nat) :
  n < 10 -> String.length (JS.toString n) = 1.
Proof.
  intros H. do 10 (destruct n as [|n]; [reflexivity |]). lia.
Qed.

(** C3. A task whose minute, hour and day of week are plain texts (no
    dollar sign, no opening brace; every value of the admin panel is one)
    compiles to the six fields "0 minute hour * * day"; and when the
    message it names is stored with [sendAsEmbed] off and its channel can
    be fetched, a fire sends that message's text, as plain text, to the
    stored channel. At the Monday 9:00 task and the message "Standup"
    this is the trigger "0 0 9 * * MON" and one plain send of "Standup". *)
Theorem compiles_to_six_fields_and_sends_text
    (embedBuilds : string -> option string -> bool)
    (task : RecurringMessageTask) (messages : list RecurringMessage)
    (channels : list string) (m : RecurringMessage) :
  JS.plain (utcTimeMinute task) = true ->
  JS.plain (utcTimeHour task) = true ->
  JS.plain (dayOfWeek task) = true ->
  findOne messages (recurringMessageId task) = Some m ->
  sendAsEmbed m = false ->
  JS.includes channels (channelId m) = true ->
  cronTabString task
  = "0 " +:+ utcTimeMinute task +:+ " " +:+ utcTimeHour task
      +:+ " * * " +:+ dayOfWeek task
  /\ onTick embedBuilds task messages channels
     = Resolved [SendText (channelId m) (text m)].
Proof.
  intros Hm Hh Hd Hfind Hplain Hchan. split.
  - exact (cronTabString_plain task Hm Hh Hd).
  - unfold onTick, fetchChannel. now rewrite Hfind, Hchan, Hplain.
Qed.

Lemma compiles_to_six_fields_and_sends_text_witness :
  JS.plain (utcTimeMinute Scenario.monday) = true
  /\ JS.plain (utcTimeHour Scenario.monday) = true
  /\ JS.plain (dayOfWeek Scenario.monday) = true
  /\ findOne [Scenario.standup] (recurringMessageId Scenario.monday)
     = Some Scenario.standup
  /\ sendAsEmbed Scenario.standup = false
  /\ JS.includes ["general"] (channelId Scenario.standup) = true
  /\ cronTabString Scenario.monday = "0 0 9 * * MON"
  /\ onTick hexEmbed Scenario.monday [Scenario.standup] ["general"]
     = Resolved [SendText "general" "Standup"].
Proof.
  do 6 (split; [reflexivity |]).
  exact (compiles_to_six_fields_and_sends_text hexEmbed Scenario.monday
           [Scenario.standup] ["general"] Scenario.standup
           eq_refl eq_refl eq_refl eq_refl eq_refl eq_refl).
Defined.

(** C8, as the spec words it, fails: the Monday 9:00 task is a task of the
    admin panel, and the minute and hour fields of its trigger are the
    single digits "0" and "9". *)
Lemma hour_and_minute_are_not_padded :
  ~ (forall task, availableTask task -> zeroPaddedTrigger task).
Proof.
  intros H.
  assert (Hpanel : availableTask Scenario.monday).
  { repeat split.
    - cbn. tauto.
    - apply in_map_iff. exists 9. split; [reflexivity | apply in_seq; lia].
    - apply in_map_iff. exists 0. split; [reflexivity | apply in_seq; lia]. }
  destruct (H _ Hpanel) as (sec & mi & h & dom & mon & d & Hf & Hmi & _).
  vm_compute in Hf. injection Hf as _ <- _ _ _ _. discriminate Hmi.
Qed.

(** C8, amended. For a task entered through the admin panel the trigger
    has the six fields 0, minute, hour, *, *, day, where minute and hour
    are the stored texts as they are: the unpadded decimal of a number
    below 60 and below 24 (one digit below 10), and the day of week is
    one of SUN, MON, TUE, WED, THU, FRI, SAT or the wildcard. *)
Theorem panel_values_are_substituted_verbatim (task : RecurringMessageTask) :
  availableTask task ->
  cronFields (cronTabString task)
  = ["0"; utcTimeMinute task; utcTimeHour task; "*"; "*"; dayOfWeek task]
  /\ (exists m, m < 60 /\ utcTimeMinute task = JS.toString m
                /\ (m < 10 -> String.length (utcTimeMinute task) = 1))
  /\ (exists h, h < 24 /\ utcTimeHour task = JS.toString h
                /\ (h < 10 -> String.length (utcTimeHour task) = 1))
  /\ In (dayOfWeek task) ["*"; "SUN"; "MON"; "TUE"; "WED"; "THU"; "FRI"; "SAT"].
Proof.
  intros Hpanel.
  destruct (cronTabString_panel task Hpanel) as (Pm & Ph & Pd & Sm & Sh & Sd).
  destruct Hpanel as (Hd & Hh & Hm).
  split; [| split; [| split]].
  - rewrite (cronTabString_plain task Pm Ph Pd).
    now apply cronFields_sixFields.
  - apply in_map_iff in Hm as (m & <- & Hin). apply in_seq in Hin.
    exists m. repeat split; [lia | apply toString_one_digit].
  - apply in_map_iff in Hh as (h & <- & Hin). apply in_seq in Hin.
    exists h. repeat split; [lia | apply toString_one_digit].
  - exact Hd.
Qed.

Lemma panel_values_are_substituted_verbatim_witness :
  availableTask Scenario.friday
  /\ cronFields (cronTabString Scenario.friday)
     = ["0"; "30"; "17"; "*"; "*"; "FRI"].
Proof.
  assert (Hpanel : availableTask Scenario.friday).
  { repeat split.
    - cbn. tauto.
    - apply in_map_iff. exists 17. split; [reflexivity | apply in_seq; lia].
    - apply in_map_iff. exists 30. split; [reflexivity | apply in_seq; lia]. }
  split; [exact Hpanel |].
  exact (proj1 (panel_values_are_substituted_verbatim Scenario.friday Hpanel)).
Defined.

(** ** The trigger callback *)



(** C4, as the spec words it, fails: with the message gone the callback
    does not end quietly, its promise is rejected. *)
Lemma missing_message_is_not_a_quiet_fire :
  ~ (forall embedBuilds task messages channels,
       findOne messages (recurringMessageId task) = None ->
       onTick embedBuilds task messages channels = Resolved []).
Proof.
  intros H. specialize (H hexEmbed Scenario.monday [] [] eq_refl).
  discriminate H.
Qed.

(** C4, amended. When the message a running job names is no longer
    stored, its fire sends nothing and changes neither the jobs nor the
    registry; the callback reads a property of the null record and its
    promise is rejected with that error, which nothing catches. *)
Theorem fire_without_message_sends_nothing_and_rejects
    (validCronTime : string -> bool) (w : World) (r : nat) (j : CronJob) :
  heap w !! r = Some j ->
  running j = true ->
  findOne (messageTable w) (recurringMessageId (closure j)) = None ->
  onTick (embedBuilds w) (closure j) (messageTable w) (channels w)
  = Rejected NullRecord
  /\ exists w', step validCronTime (Fire r) w = Some w'
       /\ outbox w' = outbox w
       /\ rejections w' = rejections w ++ [NullRecord]
       /\ heap w' = heap w /\ cronJobs w' = cronJobs w.
Proof.
  intros Hr Hrun Hnone.
  assert (Htick : onTick (embedBuilds w) (closure j) (messageTable w)
                    (channels w)
                  = Rejected NullRecord) by (unfold onTick; now rewrite Hnone).
  split; [exact Htick |].
  eexists. cbn [step]. rewrite Hr, Hrun, Htick. repeat split.
Qed.

Lemma fire_without_message_sends_nothing_and_rejects_witness :
  heap Scenario.orphaned !! 0
  = Some {| cronTime := "0 0 9 * * MON"; closure := Scenario.monday;
            running := true |}
  /\ onTick hexEmbed Scenario.monday [] ["general"] = Rejected NullRecord.
Proof.
  split; [reflexivity |].
  exact (proj1 (fire_without_message_sends_nothing_and_rejects
                  panelCronTime Scenario.orphaned 0 _ eq_refl eq_refl eq_refl)).
Defined.

(** ** The event loop *)

Lemma lookup_last {A} (l : list A) (x : A) : (l ++ [x]) !! length l = Some x.
Proof. now apply list_lookup_middle. Qed.

Lemma insert_last {A} (l : list A) (x y : A) :
  <[length l := y]> (l ++ [x]) = l ++ [y].
Proof.
  rewrite insert_app_r_alt by lia. now rewrite Nat.sub_diag.
Qed.

Lemma stopAll_length (registry : list RecurringMessageTaskCronJob)
    (h : list CronJob) :
  length (stopAll registry h) = length h.
Proof.
  unfold stopAll. revert h.
  induction registry as [|e registry IH]; intros h; cbn; [reflexivity |].
  now rewrite IH, length_alter.
Qed.

(** [stopAll] stops the jobs the registry refers to and no other. *)
Lemma stopAll_lookup (registry : list RecurringMessageTaskCronJob)
    (h : list CronJob) (r : nat) :
  stopAll registry h !! r
  = (fun j => if registered r registry then stop j else j) <$> h !! r.
Proof.
  unfold stopAll. revert h.
  induction registry as [|e registry IH]; intros h; cbn.
  - now destruct (h !! r).
  - rewrite IH. destruct (Nat.eqb_spec (cronJob e) r) as [->|Hne]; cbn.
    + rewrite list_lookup_alter_eq. destruct (h !! r); cbn; [| reflexivity].
      now destruct (registered r registry).
    + now rewrite list_lookup_alter_ne.
Qed.

Section EventLoopFacts.

Variable validCronTime : string -> bool.

Lemma scheduleAll_closed (rows : list RecurringMessageTask)
    (h : list CronJob) (registry : list RecurringMessageTaskCronJob) :
  scheduleAll validCronTime rows h registry
  = (h ++ map jobOf (accepted validCronTime rows),
     registry ++ imap (entryOf (length h)) (accepted validCronTime rows),
     forallb (fun t => validCronTime (cronTabString t)) rows).
Proof.
  revert h registry.
  induction rows as [|task rows IH]; intros h registry;
    cbn [scheduleAll accepted forallb map].
  - now rewrite !app_nil_r.
  - destruct (validCronTime (cronTabString task)); cbn [andb map].
    + rewrite IH, imap_cons, <- !app_assoc. cbn [app].
      unfold entryOf at 2. rewrite Nat.add_0_r.
      do 4 f_equal. apply imap_ext. intros n t _. cbn. unfold entryOf.
      f_equal. rewrite length_app. cbn. lia.
    + now rewrite !app_nil_r.
Qed.

(** The tasks the loop reaches are a prefix of the rows it was given, and
    all of them when no cron time is refused. *)
Lemma accepted_all (rows : list RecurringMessageTask) :
  (forall t, In t rows -> validCronTime (cronTabString t) = true) ->
  accepted validCronTime rows = rows.
Proof.
  induction rows as [|t rows IH]; intros H; cbn; [reflexivity |].
  rewrite (H t (or_introl eq_refl)). f_equal. apply IH.
  intros t' Ht'. apply H. now right.
Qed.

Lemma accepted_until (pre post : list RecurringMessageTask)
    (bad : RecurringMessageTask) :
  (forall t, In t pre -> validCronTime (cronTabString t) = true) ->
  validCronTime (cronTabString bad) = false ->
  accepted validCronTime (pre ++ bad :: post) = pre.
Proof.
  induction pre as [|t pre IH]; intros H Hbad; cbn.
  - now rewrite Hbad.
  - rewrite (H t (or_introl eq_refl)). f_equal. apply IH; [| exact Hbad].
    intros t' Ht'. apply H. now right.
Qed.

Lemma accepted_In (rows : list RecurringMessageTask)
    (t : RecurringMessageTask) :
  In t (accepted validCronTime rows) -> In t rows.
Proof.
  induction rows as [|a rows IH]; cbn; [tauto |].
  destruct (validCronTime (cronTabString a)); cbn; [| tauto].
  intros [->|H]; [now left | right; now apply IH].
Qed.

Lemma pass_alone (w : World) :
  run validCronTime (pass (length (invocations w))) w
  = Some (afterPass validCronTime w).
Proof.
  unfold pass, afterPass.
  repeat first
    [ rewrite insert_last | rewrite lookup_last | rewrite Nat.leb_refl
    | rewrite scheduleAll_closed | rewrite stopAll_length
    | progress unfold syncCronJobs_afterSleep, syncCronJobs_afterFind,
        setInvocation, setRegistry
    | progress cbn [run step syncCronJobs setInvocation setRegistry now
                    invocations
                    taskTable heap cronJobs messageTable channels outbox
                    rejections app] ].
  reflexivity.
Qed.

End EventLoopFacts.

(** ** One pass, alone and overlapped *)

Lemma entries_taskId (base : nat) (rows : list RecurringMessageTask) :
  map taskId (imap (entryOf base) rows) = map recurringMessageId rows.
Proof.
  revert base. induction rows as [|t rows IH]; intros base; [reflexivity |].
  rewrite imap_cons. cbn [map]. f_equal.
  rewrite <- (IH (S base)). f_equal. apply imap_ext. intros n x _. cbn.
  unfold entryOf. f_equal. lia.
Qed.

(** A pass that runs alone, over definitions the parser accepts, returns
    with one entry per definition read, in their order, each referring to
    a started job for that definition; the jobs the registry held before
    are stopped. *)
Lemma pass_alone_registers_each_task_once
    (validCronTime : string -> bool) (w : World) :
  (forall t, In t (taskTable w) -> validCronTime (cronTabString t) = true) ->
  exists w',
    run validCronTime (pass (length (invocations w))) w = Some w'
    /\ invocations w' !! length (invocations w) = Some Returned
    /\ length (cronJobs w') = length (taskTable w)
    /\ (forall n t, taskTable w !! n = Some t ->
          cronJobs w' !! n
          = Some {| cronJob := length (heap w) + n;
                    taskId := recurringMessageId t |}
          /\ heap w' !! (length (heap w) + n) = Some (jobOf t))
    /\ (forall r j, heap w !! r = Some j -> registered r (cronJobs w) = true ->
          heap w' !! r = Some (stop j)).
Proof.
  intros Hvalid. exists (afterPass validCronTime w).
  split; [apply pass_alone |].
  assert (Hall : forallb (fun t => validCronTime (cronTabString t))
                   (taskTable w) = true)
    by (apply forallb_forall; exact Hvalid).
  unfold afterPass. cbn [invocations cronJobs heap].
  rewrite (accepted_all _ _ Hvalid), Hall.
  split; [apply lookup_last |]. split; [apply length_imap |]. split.
  - intros n t Hn. split.
    + rewrite list_lookup_imap, Hn. reflexivity.
    + rewrite lookup_app_r by (rewrite stopAll_length; lia).
      rewrite stopAll_length, list_lookup_fmap.
      replace (length (heap w) + n - length (heap w)) with n by lia.
      now rewrite Hn.
  - intros r j Hr Hreg.
    rewrite lookup_app_l
      by (rewrite stopAll_length; exact (lookup_lt_Some _ _ _ Hr)).
    now rewrite stopAll_lookup, Hreg, Hr.
Qed.


(** Two calls that both hold the rows of their query both append: the
    second finds the jobs of the first in the registry and leaves them
    there, running. *)
Lemma two_resumed_calls_both_append
    (validCronTime : string -> bool) (w : World) (i j : nat)
    (rows1 rows2 : list RecurringMessageTask) :
  i <> j ->
  invocations w !! i = Some (FindResolved rows1) ->
  invocations w !! j = Some (FindResolved rows2) ->
  exists w',
    run validCronTime [FindReturns i; FindReturns j] w = Some w'
    /\ cronJobs w'
       = cronJobs w
         ++ imap (entryOf (length (heap w))) (accepted validCronTime rows1)
         ++ imap (entryOf (length (heap w)
                           + length (accepted validCronTime rows1)))
              (accepted validCronTime rows2)
    /\ heap w'
       = heap w ++ map jobOf (accepted validCronTime rows1)
         ++ map jobOf (accepted validCronTime rows2).
Proof.
  intros Hij Hi Hj. eexists. cbn [run step]. rewrite Hi.
  repeat first
    [ rewrite scheduleAll_closed
    | rewrite list_lookup_insert_ne by exact Hij
    | rewrite Hj
    | progress unfold syncCronJobs_afterFind
    | progress cbn [run invocations heap cronJobs setInvocation
                    setRegistry] ].
  split; [reflexivity |].
  now rewrite length_app, length_map, <- !app_assoc.
Qed.

(** C1. Two calls of [syncCronJobs] made within the same two seconds:
    each empties the registry before it awaits the task rows, and each
    then pushes a job for every row. With one Monday task stored, both
    calls return and leave the registry with two started jobs for it. *)
Theorem overlapping_passes_register_a_task_twice :
  exists w',
    run panelCronTime Scenario.overlapped (Scenario.fresh [Scenario.monday])
    = Some w'
    /\ invocations w' = [Returned; Returned]
    /\ taskTable w' = [Scenario.monday]
    /\ cronJobs w' = [{| cronJob := 0; taskId := 7 |};
                      {| cronJob := 1; taskId := 7 |}]
    /\ heap w' = [jobOf Scenario.monday; jobOf Scenario.monday].
Proof.
  eexists. split; [vm_compute; reflexivity |]. repeat split.
Qed.

(** C2. From the state in which the Monday job of an earlier pass runs:
    once the timer of a new call has fired, the old job is stopped and the
    registry is empty while the call still awaits the task rows, and a
    second call whose timer fires in that window finds nothing to stop.
    When both have returned, the job of the first is still running beside
    the job of the second, and the next Monday 9:00 sends the stand-up
    twice. *)
Theorem emptied_registry_is_observable_and_two_generations_fire :
  (exists w1,
     run panelCronTime [Call; Elapse settleDelay; TimerFires 1]
       Scenario.scheduled = Some w1
     /\ cronJobs w1 = [] /\ taskTable w1 = [Scenario.monday]
     /\ invocations w1 !! 1 = Some AwaitingFind
     /\ step panelCronTime (Fire 0) w1 = None)
  /\ (exists w2,
        run panelCronTime
          [Call; Call; Elapse settleDelay; TimerFires 1; FindResponds 1;
           TimerFires 2; FindResponds 2; FindReturns 1; FindReturns 2;
           Fire 1; Fire 2] Scenario.scheduled = Some w2
        /\ invocations w2 = [Returned; Returned; Returned]
        /\ map running (heap w2) = [false; true; true]
        /\ outbox w2 = [SendText "general" "Standup";
                        SendText "general" "Standup"]).
Proof.
  split; eexists; (split; [vm_compute; reflexivity |]); repeat split.
Qed.

(** ** A cron time the parser refuses *)

(** Whatever the parser, as soon as it refuses one cron time and accepts
    another, a refused definition stored before an accepted one costs the
    accepted one its job. *)
Lemma refusal_ends_the_loop (validCronTime : string -> bool)
    (bad good : RecurringMessageTask) :
  validCronTime (cronTabString bad) = false ->
  validCronTime (cronTabString good) = true ->
  ~ omitsOnlyTheMalformed validCronTime.
Proof.
  intros Hbad Hgood H.
  specialize (H (Scenario.fresh [bad; good])
                (afterPass validCronTime (Scenario.fresh [bad; good]))).
  cbn [Scenario.fresh taskTable List.filter] in H.
  rewrite Hbad, Hgood in H. cbn [negb length List.filter] in H.
  specialize (H eq_refl (pass_alone validCronTime _)).
  unfold afterPass, Scenario.fresh in H.
  cbn [taskTable cronJobs accepted] in H.
  rewrite Hbad in H. discriminate H.
Qed.

(** C5, as the spec words it, fails: a definition the parser refuses is
    not skipped, the loop ends at it. *)
Lemma malformed_definition_is_not_skipped :
  ~ omitsOnlyTheMalformed panelCronTime.
Proof.
  apply (refusal_ends_the_loop panelCronTime Scenario.someday Scenario.monday);
    reflexivity.
Qed.

(** C5, amended. When [CronJob.from] refuses the cron time of a stored
    definition, a pass that runs alone ends with that exception: the jobs
    the registry held are stopped, the registry holds one started job for
    each definition read before the refused one, and none for the refused
    one or for those read after it. *)
Theorem malformed_definition_ends_the_pass
    (validCronTime : string -> bool) (w : World)
    (pre post : list RecurringMessageTask) (bad : RecurringMessageTask) :
  taskTable w = pre ++ bad :: post ->
  (forall t, In t pre -> validCronTime (cronTabString t) = true) ->
  validCronTime (cronTabString bad) = false ->
  exists w',
    run validCronTime (pass (length (invocations w))) w = Some w'
    /\ invocations w' !! length (invocations w) = Some Threw
    /\ cronJobs w' = imap (entryOf (length (heap w))) pre
    /\ map taskId (cronJobs w') = map recurringMessageId pre
    /\ heap w' = stopAll (cronJobs w) (heap w) ++ map jobOf pre.
Proof.
  intros Htable Hpre Hbad. exists (afterPass validCronTime w).
  split; [apply pass_alone |].
  unfold afterPass. cbn [invocations cronJobs heap].
  rewrite Htable, (accepted_until _ _ _ _ Hpre Hbad).
  assert (Hall : forallb (fun t => validCronTime (cronTabString t))
                   (pre ++ bad :: post) = false).
  { rewrite forallb_app. cbn [forallb]. rewrite Hbad.
    now rewrite andb_false_r. }
  rewrite Hall. split; [apply lookup_last |].
  split; [reflexivity |]. split; [apply entries_taskId | reflexivity].
Qed.

Lemma malformed_definition_ends_the_pass_witness :
  taskTable (Scenario.fresh [Scenario.friday; Scenario.someday;
                             Scenario.monday])
  = [Scenario.friday] ++ Scenario.someday :: [Scenario.monday]
  /\ panelCronTime (cronTabString Scenario.someday) = false
  /\ exists w',
       run panelCronTime (pass 0)
         (Scenario.fresh [Scenario.friday; Scenario.someday; Scenario.monday])
       = Some w'
       /\ invocations w' !! 0 = Some Threw
       /\ cronJobs w' = imap (entryOf 0) [Scenario.friday]
       /\ map taskId (cronJobs w') = map recurringMessageId [Scenario.friday]
       /\ heap w' = stopAll [] [] ++ map jobOf [Scenario.friday].
Proof.
  split; [reflexivity |]. split; [reflexivity |].
  apply (malformed_definition_ends_the_pass panelCronTime
           (Scenario.fresh [Scenario.friday; Scenario.someday; Scenario.monday])
           [Scenario.friday] [Scenario.monday] Scenario.someday eq_refl).
  - intros t [<-|[]]. reflexivity.
  - reflexivity.
Defined.

(** ** Invariants of the event loop *)

Section Steps.

Variable validCronTime : string -> bool.

Ltac step_cases H :=
  match type of H with
  | step _ ?e ?w = Some _ =>
      destruct e; cbn [step] in H;
      unfold syncCronJobs_afterSleep, syncCronJobs_afterFind in H;
      rewrite ?scheduleAll_closed in H;
      repeat case_match; simplify_eq
  end.

(** Time does not go back. *)
Lemma step_now (e : Event) (w w' : World) :
  step validCronTime e w = Some w' -> now w <= now w'.
Proof. intros H. step_cases H; cbn; lia. Qed.

Lemma run_now (es : list Event) (w w' : World) :
  run validCronTime es w = Some w' -> now w <= now w'.
Proof.
  revert w. induction es as [|e es IH]; intros w H; cbn [run] in H.
  - injection H as <-. lia.
  - destruct (step validCronTime e w) as [w1|] eqn:E; [| discriminate].
    apply step_now in E. apply IH in H. lia.
Qed.



(** The embed builder is code of the library: no event changes what it
    accepts. *)
Lemma step_embedBuilds (e : Event) (w w' : World) :
  step validCronTime e w = Some w' -> embedBuilds w' = embedBuilds w.
Proof. intros H. step_cases H; cbn in *; try discriminate; reflexivity. Qed.

Lemma run_embedBuilds (es : list Event) (w w' : World) :
  run validCronTime es w = Some w' -> embedBuilds w' = embedBuilds w.
Proof.
  revert w. induction es as [|e es IH]; intros w H; cbn [run] in H.
  - now injection H as <-.
  - destruct (step validCronTime e w) as [w1|] eqn:E; [| discriminate].
    rewrite (IH _ H). exact (step_embedBuilds _ _ _ E).
Qed.











End Steps.

(** ** Reads: the settle delay and the text of a fire *)





(** The stand-up switched to an embed and its text emptied: the builder
    used here throws on the description, as the one of the library does,
    and the fire sends nothing. *)
Lemma emptied_embed_is_not_sent :
  option_map (fun w => (outbox w, rejections w))
    (run panelCronTime [SaveMessage Scenario.blank; Fire 0]
       Scenario.scheduled)
  = Some ([], [EmbedRefused]).
Proof. vm_compute. reflexivity. Qed.

(* ================================================================== *)
(** ** Guild reconciliation *)

Import Guilds.

Lemma includes_In (l : list string) (x : string) :
  JS.includes l x = true <-> In x l.
Proof.
  unfold JS.includes. rewrite existsb_exists. split.
  - intros (y & Hy & ->%String.eqb_eq). exact Hy.
  - intros H. exists x. split; [exact H | apply String.eqb_refl].
Qed.

Lemma writes_app (e1 e2 : list Effect) :
  writes (e1 ++ e2) = writes e1 ++ writes e2.
Proof. unfold writes. apply flat_map_app. Qed.

Lemma writes_warmUp (channels : list Channel) : writes (warmUp channels) = [].
Proof.
  unfold warmUp, writes.
  induction (List.filter isTextBased channels) as [|c l IH]; [reflexivity |].
  exact IH.
Qed.

Lemma writes_insertNew (guilds : list Guild) (stored : list Server) :
  writes (insertNew guilds stored)
  = map (fun id => InsertServer id (guildName guilds id))
        (newlyCreatedServerIds guilds stored).
Proof.
  unfold insertNew, writes.
  induction (newlyCreatedServerIds guilds stored) as [|id l IH];
    [reflexivity |].
  cbn. now f_equal.
Qed.

Lemma writes_syncServers (guilds : list Guild) (channels : list Channel)
    (stored : list Server) :
  writes (syncServers guilds channels stored)
  = map (fun id => InsertServer id (guildName guilds id))
        (newlyCreatedServerIds guilds stored).
Proof.
  unfold syncServers.
  rewrite !writes_app, writes_insertNew, writes_warmUp.
  cbn. now rewrite app_nil_r.
Qed.

(** Every guild of the cache has a name to be stored under; when ids are
    not repeated (the cache is a map) it is its own. *)
Lemma guildName_Some (guilds : list Guild) (id : string) :
  In id (serversIds guilds) -> exists n, guildName guilds id = Some n.
Proof.
  unfold guildName, serversIds.
  induction guilds as [|g guilds IH]; cbn; [tauto |].
  intros [<-|H].
  - rewrite String.eqb_refl. eauto.
  - destruct (String.eqb (guild_id g) id); [eauto | now apply IH].
Qed.

Lemma guildName_own (guilds : list Guild) (g : Guild) :
  NoDup (serversIds guilds) -> In g guilds ->
  guildName guilds (guild_id g) = Some (guild_name g).
Proof.
  unfold guildName, serversIds.
  induction guilds as [|a guilds IH]; cbn; [tauto |].
  intros Hnd [->|H].
  - now rewrite String.eqb_refl.
  - apply NoDup_cons in Hnd as [Ha Hnd].
    destruct (String.eqb_spec (guild_id a) (guild_id g)) as [E|_].
    + exfalso. apply Ha. rewrite E. apply list_elem_of_In.
      now apply in_map.
    + now apply IH.
Qed.

(** Carrying out inserts only appends rows, and every id inserted under
    some name is stored afterwards. *)
Lemma commit_inserts (guilds : list Guild) (ids : list string)
    (table : list Server) :
  exists added,
    foldl applyWrite table
      (map (fun id => InsertServer id (guildName guilds id)) ids)
    = table ++ added
    /\ (forall id, In id ids -> In id (serversIds guilds) ->
          In id (map serverId (table ++ added)))
    /\ (forall r, In r added ->
          In (serverId r) ids
          /\ guildName guilds (serverId r) = Some (name r)).
Proof.
  revert table. induction ids as [|a ids IH]; intros table; cbn [map foldl].
  - exists []. rewrite app_nil_r.
    split; [reflexivity |]. split; [intros ? [] | intros ? []].
  - assert (Hone : exists add1,
              applyWrite table (InsertServer a (guildName guilds a))
              = table ++ add1
              /\ (In a (serversIds guilds) ->
                  In a (map serverId (table ++ add1)))
              /\ (forall r, In r add1 ->
                    serverId r = a
                    /\ guildName guilds (serverId r) = Some (name r))).
    { cbn [applyWrite]. destruct (guildName guilds a) as [n|] eqn:En.
      - destruct (JS.includes (map serverId table) a) eqn:Ei.
        + exists []. rewrite app_nil_r.
          split; [reflexivity |]. split; [| intros ? []].
          intros _. now apply includes_In.
        + exists [{| serverId := a; name := n |}].
          split; [reflexivity |]. split.
          * intros _. rewrite map_app. apply in_or_app. right. now left.
          * intros r [<-|[]]. now split.
      - exists []. rewrite app_nil_r.
        split; [reflexivity |]. split; [| intros ? []].
        intros Ha. apply guildName_Some in Ha as (n & Hn). congruence. }
    destruct Hone as (add1 & -> & Ha & Hadd1).
    destruct (IH (table ++ add1)) as (add2 & -> & Hids & Hadd2).
    exists (add1 ++ add2). rewrite app_assoc.
    split; [reflexivity |]. split.
    + intros id [<-|Hid] Hlive.
      * rewrite map_app. apply in_or_app. left. now apply Ha.
      * now apply Hids.
    + intros r [H|H]%in_app_or.
      * destruct (Hadd1 r H) as [<- Hn]. split; [now left | exact Hn].
      * destruct (Hadd2 r H) as [Hr Hn]. split; [now right | exact Hn].
Qed.

Lemma newlyCreated_In (guilds : list Guild) (stored : list Server)
    (id : string) :
  In id (newlyCreatedServerIds guilds stored) <->
  In id (serversIds guilds) /\ ~ In id (map serverId stored).
Proof.
  unfold newlyCreatedServerIds. rewrite filter_In, negb_true_iff.
  rewrite <- not_true_iff_false, includes_In. tauto.
Qed.

(** After a call of the scheduler-bearing revision every guild of the
    cache is stored. *)
Lemma syncServers_stores_every_guild
    (guilds : list Guild) (channels : list Channel) (stored : list Server) :
  forall id, In id (serversIds guilds) ->
    In id (map serverId (commit stored (syncServers guilds channels stored))).
Proof.
  unfold commit. rewrite writes_syncServers.
  destruct (commit_inserts guilds (newlyCreatedServerIds guilds stored) stored)
    as (added & -> & Hids & _).
  intros id Hid.
  destruct (in_dec String.string_dec id (map serverId stored)) as [H|H].
  - rewrite map_app. apply in_or_app. now left.
  - apply Hids; [| exact Hid]. now apply newlyCreated_In.
Qed.

(** C10. In the revisions that carry the scheduler, every statement
    [syncServers] sends to the store is an insert: one for each guild of
    the cache whose id is not stored. Carried out, they leave the stored
    rows as they were and append rows of such guilds only, so nothing is
    deleted or renamed, no stored row is lost, and every guild of the
    cache is stored afterwards; a new row carries its guild's name. *)
Theorem syncServers_only_inserts
    (guilds : list Guild) (channels : list Channel) (stored : list Server) :
  forallb isInsert (writes (syncServers guilds channels stored)) = true
  /\ (forall id, In id (serversIds guilds) -> ~ In id (map serverId stored) ->
        In (InsertServer id (guildName guilds id))
           (writes (syncServers guilds channels stored)))
  /\ (exists added,
        commit stored (syncServers guilds channels stored) = stored ++ added
        /\ forall r, In r added ->
             In (serverId r) (serversIds guilds)
             /\ ~ In (serverId r) (map serverId stored)
             /\ guildName guilds (serverId r) = Some (name r))
  /\ (forall id, In id (serversIds guilds) ->
        In id (map serverId
                 (commit stored (syncServers guilds channels stored))))
  /\ (NoDup (serversIds guilds) ->
      forall g, In g guilds -> ~ In (guild_id g) (map serverId stored) ->
        In {| serverId := guild_id g; name := guild_name g |}
           (commit stored (syncServers guilds channels stored))).
Proof.
  unfold commit. rewrite writes_syncServers.
  destruct (commit_inserts guilds (newlyCreatedServerIds guilds stored) stored)
    as (added & Hcommit & Hids & Hadded).
  rewrite Hcommit.
  assert (Hlive : forall id, In id (serversIds guilds) ->
                    In id (map serverId (stored ++ added))).
  { intros id Hid.
    destruct (in_dec String.string_dec id (map serverId stored)) as [H|H].
    - rewrite map_app. apply in_or_app. now left.
    - apply Hids; [| exact Hid]. now apply newlyCreated_In. }
  split; [| split; [| split; [| split]]].
  - apply forallb_forall. now intros w (id & <- & _)%in_map_iff.
  - intros id Hid Hnew. apply in_map_iff. exists id.
    split; [reflexivity | now apply newlyCreated_In].
  - exists added. split; [reflexivity |]. intros r Hr.
    destruct (Hadded r Hr) as [Hnew Hname].
    apply newlyCreated_In in Hnew as [Hid Hnew]. now repeat split.
  - exact Hlive.
  - intros Hnd g Hg Hnew.
    assert (Hid : In (guild_id g) (serversIds guilds)) by now apply in_map.
    specialize (Hlive _ Hid). rewrite map_app in Hlive.
    apply in_app_or in Hlive as [H|H]; [contradiction |].
    apply in_map_iff in H as (r & Hr & Hin).
    apply in_or_app. right.
    destruct (Hadded r Hin) as [_ Hname].
    rewrite Hr, (guildName_own guilds g Hnd Hg) in Hname.
    destruct r as [rid rname]. cbn in *. now simplify_eq.
Qed.

Lemma syncServers_only_inserts_witness :
  NoDup (serversIds [Scenario.guildA; Scenario.guildB; Scenario.guildC])
  /\ commit [Scenario.storedA; Scenario.storedB]
       (syncServers [Scenario.guildA; Scenario.guildB; Scenario.guildC] []
          [Scenario.storedA; Scenario.storedB])
     = [Scenario.storedA; Scenario.storedB;
        {| serverId := "C"; name := "Gamma" |}]
  /\ In {| serverId := "C"; name := "Gamma" |}
        (commit [Scenario.storedA; Scenario.storedB]
           (syncServers [Scenario.guildA; Scenario.guildB; Scenario.guildC] []
              [Scenario.storedA; Scenario.storedB])).
Proof.
  assert (Hnd : NoDup (serversIds [Scenario.guildA; Scenario.guildB;
                                   Scenario.guildC])).
  { cbn. repeat constructor; rewrite ?list_elem_of_In; cbn;
      intuition congruence. }
  split; [exact Hnd |]. split; [reflexivity |].
  apply (proj2 (proj2 (proj2 (proj2
           (syncServers_only_inserts
              [Scenario.guildA; Scenario.guildB; Scenario.guildC] []
              [Scenario.storedA; Scenario.storedB])))) Hnd Scenario.guildC).
  - cbn. tauto.
  - cbn. intuition congruence.
Defined.

(** *** The first revision: delete, relabel, insert *)

Lemma relabel_serverId (guilds : list Guild) (r : Server) :
  serverId (relabel guilds r) = serverId r.
Proof. unfold relabel. now destruct (guildName guilds (serverId r)). Qed.

Lemma relabel_relabel (guilds : list Guild) (r : Server) :
  relabel guilds (relabel guilds r) = relabel guilds r.
Proof.
  unfold relabel at 1. rewrite relabel_serverId. unfold relabel.
  now destruct (guildName guilds (serverId r)).
Qed.

Lemma relabel_upToDate (guilds : list Guild) (r : Server) :
  upToDate guilds r -> relabel guilds r = r.
Proof. intros [_ H]. unfold relabel. rewrite H. now destruct r. Qed.

Lemma upToDate_relabel (guilds : list Guild) (r : Server) :
  JS.includes (serversIds guilds) (serverId r) = true ->
  upToDate guilds (relabel guilds r).
Proof.
  intros H. unfold upToDate. rewrite relabel_serverId. split; [exact H |].
  apply includes_In, guildName_Some in H as (n & Hn).
  unfold relabel. now rewrite Hn.
Qed.

Lemma omap_reconciled_nil (guilds : list Guild) (table : list Server) :
  omap (reconciled guilds []) table = table.
Proof. induction table as [|r table IH]; cbn; [reflexivity | now f_equal]. Qed.

(** The statements of one round of the loop, carried out. *)
Lemma reconcile_commit (guilds : list Guild) (a : Server)
    (table : list Server) :
  foldl applyWrite table (writes (Initial.reconcile guilds a))
  = omap (reconciled guilds [serverId a]) table.
Proof.
  unfold Initial.reconcile, reconciled, JS.includes at 2.
  destruct (JS.includes (serversIds guilds) (serverId a)) eqn:Elive;
    cbn [negb writes flat_map app foldl applyWrite existsb].
  - destruct (guildName guilds (serverId a)) as [n|] eqn:En.
    + induction table as [|r table IH]; [reflexivity |].
      cbn [map omap list_omap]. rewrite orb_false_r.
      destruct (String.eqb_spec (serverId r) (serverId a)) as [E|_].
      * rewrite E, Elive. unfold relabel. rewrite E, En. cbn. now f_equal.
      * cbn. now f_equal.
    + induction table as [|r table IH]; [reflexivity |].
      cbn [omap list_omap]. rewrite orb_false_r.
      destruct (String.eqb_spec (serverId r) (serverId a)) as [E|_].
      * rewrite E, Elive. unfold relabel. rewrite E, En. cbn. now f_equal.
      * cbn. now f_equal.
  - induction table as [|r table IH]; [reflexivity |].
    cbn [List.filter omap list_omap]. rewrite orb_false_r.
    destruct (String.eqb_spec (serverId r) (serverId a)) as [E|_].
    + rewrite E, Elive. cbn. exact IH.
    + cbn. now f_equal.
Qed.

(** One more stored server seen. *)
Lemma reconciled_step (guilds : list Guild) (a : string) (seen : list string)
    (r : Server) :
  match reconciled guilds [a] r with
  | Some r' => reconciled guilds seen r'
  | None => None
  end = reconciled guilds (a :: seen) r.
Proof.
  unfold reconciled, JS.includes. cbn [existsb]. rewrite orb_false_r.
  fold (JS.includes seen (serverId r)).
  fold (JS.includes (serversIds guilds) (serverId r)).
  destruct (String.eqb (serverId r) a); cbn [orb].
  - destruct (JS.includes (serversIds guilds) (serverId r)) eqn:Elive;
      [| reflexivity].
    rewrite relabel_serverId, relabel_relabel.
    fold (JS.includes seen (serverId r)).
    fold (JS.includes (serversIds guilds) (serverId r)).
    rewrite Elive. now destruct (JS.includes seen (serverId r)).
  - reflexivity.
Qed.

Lemma reconciled_cons (guilds : list Guild) (a : string) (seen : list string)
    (table : list Server) :
  omap (reconciled guilds seen) (omap (reconciled guilds [a]) table)
  = omap (reconciled guilds (a :: seen)) table.
Proof.
  induction table as [|r table IH]; [reflexivity |].
  pose proof (reconciled_step guilds a seen r) as Hstep.
  cbn [omap list_omap].
  destruct (reconciled guilds [a] r) as [r'|];
    cbn [omap list_omap]; rewrite <- Hstep; [| exact IH].
  destruct (reconciled guilds seen r'); [now f_equal | exact IH].
Qed.

(** The whole loop, carried out: every row it has seen is deleted or
    relabelled. *)
Lemma loop_commit (guilds : list Guild) (seen table : list Server) :
  foldl applyWrite table (writes (flat_map (Initial.reconcile guilds) seen))
  = omap (reconciled guilds (map serverId seen)) table.
Proof.
  revert table. induction seen as [|a seen IH]; intros table.
  - cbn. now rewrite omap_reconciled_nil.
  - cbn [flat_map map]. rewrite writes_app, foldl_app, reconcile_commit, IH.
    apply reconciled_cons.
Qed.

Lemma writes_initial (guilds : list Guild) (channels : list Channel)
    (stored : list Server) :
  writes (Initial.syncServers guilds channels stored)
  = writes (flat_map (Initial.reconcile guilds) stored)
    ++ map (fun id => InsertServer id (guildName guilds id))
         (newlyCreatedServerIds guilds stored).
Proof.
  unfold Initial.syncServers.
  now rewrite !writes_app, writes_insertNew, writes_warmUp, app_nil_r.
Qed.

Lemma newlyCreated_none (guilds : list Guild) (table : list Server) :
  (forall id, In id (serversIds guilds) -> In id (map serverId table)) ->
  newlyCreatedServerIds guilds table = [].
Proof.
  intros H. unfold newlyCreatedServerIds.
  induction (serversIds guilds) as [|id ids IH]; [reflexivity |].
  cbn [List.filter].
  rewrite (proj2 (includes_In _ _) (H id (or_introl eq_refl))). cbn.
  apply IH. intros id' Hid'. apply H. now right.
Qed.

(** After a first call of the first revision every stored row is a row
    of a guild the bot is in, under that guild's name, and every such
    guild is stored. *)
Lemma first_call_settles (guilds : list Guild) (channels : list Channel)
    (stored : list Server) :
  (forall r,
     In r (commit stored (Initial.syncServers guilds channels stored)) ->
     upToDate guilds r)
  /\ (forall id, In id (serversIds guilds) ->
        In id (map serverId
                 (commit stored (Initial.syncServers guilds channels stored)))).
Proof.
  unfold commit. rewrite writes_initial, foldl_app, loop_commit.
  set (table := omap (reconciled guilds (map serverId stored)) stored).
  assert (Htable : forall r', In r' table <->
            exists r, In r stored
                      /\ JS.includes (serversIds guilds) (serverId r) = true
                      /\ r' = relabel guilds r).
  { intros r'. unfold table.
    rewrite <- list_elem_of_In, list_elem_of_omap. split.
    - intros (r & Hr%list_elem_of_In & Hrec). exists r.
      unfold reconciled in Hrec.
      rewrite (proj2 (includes_In _ _) (in_map serverId _ _ Hr)) in Hrec.
      destruct (JS.includes (serversIds guilds) (serverId r));
        [| discriminate].
      injection Hrec as <-. now repeat split.
    - intros (r & Hr & Hlive & ->). exists r.
      split; [now apply list_elem_of_In |]. unfold reconciled.
      now rewrite (proj2 (includes_In _ _) (in_map serverId _ _ Hr)), Hlive. }
  destruct (commit_inserts guilds (newlyCreatedServerIds guilds stored) table)
    as (added & -> & Hids & Hadded).
  split.
  - intros r' [Hr'|Hr']%in_app_or.
    + apply Htable in Hr' as (r & _ & Hlive & ->).
      now apply upToDate_relabel.
    + destruct (Hadded r' Hr') as [Hnew Hname].
      apply newlyCreated_In in Hnew as [Hlive _].
      split; [now apply includes_In | exact Hname].
  - intros id Hid.
    destruct (in_dec String.string_dec id (map serverId stored)) as [H|H].
    + apply in_map_iff in H as (r & <- & Hr).
      rewrite map_app. apply in_or_app. left.
      rewrite <- (relabel_serverId guilds r). apply in_map.
      apply Htable. exists r. repeat split; [exact Hr |].
      now apply includes_In.
    + apply Hids; [| exact Hid]. now apply newlyCreated_In.
Qed.

(** On such a table a call of the first revision sends one update per
    row, with the name the row already has, and changes nothing. *)
Lemma settled_call_only_relabels (guilds : list Guild)
    (channels : list Channel) (table : list Server) :
  (forall r, In r table -> upToDate guilds r) ->
  (forall id, In id (serversIds guilds) -> In id (map serverId table)) ->
  writes (Initial.syncServers guilds channels table)
  = map (fun r => UpdateServer (serverId r) (Some (name r))) table
  /\ commit table (Initial.syncServers guilds channels table) = table.
Proof.
  intros Hrows Hlive. unfold commit.
  rewrite writes_initial, (newlyCreated_none _ _ Hlive), app_nil_r. split.
  - clear Hlive. induction table as [|r table IH]; [reflexivity |].
    cbn [flat_map map]. rewrite writes_app, IH
      by (intros r' Hr'; apply Hrows; now right).
    destruct (Hrows r (or_introl eq_refl)) as [Hin Hname].
    unfold Initial.reconcile. now rewrite Hin, Hname.
  - rewrite loop_commit.
    assert (Hgen : forall seen rows,
              (forall r, In r rows ->
                 In (serverId r) seen /\ upToDate guilds r) ->
              omap (reconciled guilds seen) rows = rows).
    { intros seen rows. induction rows as [|r rows IH]; intros H;
        [reflexivity |].
      destruct (H r (or_introl eq_refl)) as [Hseen Hup].
      cbn [omap list_omap]. unfold reconciled at 1.
      rewrite (proj2 (includes_In _ _) Hseen), (proj1 Hup),
        (relabel_upToDate _ _ Hup).
      f_equal. apply IH. intros r' Hr'. apply H. now right. }
    apply Hgen. intros r Hr. split; [now apply in_map | now apply Hrows].
Qed.

(** C7, as the spec words it, fails for the first revision: with guild A
    in the cache and stored, its second call renames A's row again. *)
Lemma second_call_of_first_revision_writes :
  ~ (forall guilds channels stored,
       secondCallWrites Initial.syncServers guilds channels stored = []).
Proof.
  intros H.
  specialize (H [Scenario.guildA] [] [Scenario.storedA]). discriminate H.
Qed.

(** C7, amended. With the guilds unchanged and the statements of the
    first call carried out: a second call of the scheduler-bearing
    [syncServers] sends no statement to the store; a second call of the
    first revision sends no insert and no delete but one update per
    stored row, each with the name the row already has, and the stored
    rows are the same after it as before. *)
Theorem second_call_changes_nothing
    (guilds : list Guild) (channels : list Channel) (stored : list Server) :
  secondCallWrites syncServers guilds channels stored = []
  /\ secondCallWrites Initial.syncServers guilds channels stored
     = map (fun r => UpdateServer (serverId r) (Some (name r)))
           (commit stored (Initial.syncServers guilds channels stored))
  /\ forallb isUpdate
       (secondCallWrites Initial.syncServers guilds channels stored) = true
  /\ commit (commit stored (Initial.syncServers guilds channels stored))
       (Initial.syncServers guilds channels
          (commit stored (Initial.syncServers guilds channels stored)))
     = commit stored (Initial.syncServers guilds channels stored).
Proof.
  unfold secondCallWrites.
  destruct (first_call_settles guilds channels stored) as [Hrows Hlive].
  destruct (settled_call_only_relabels guilds channels _ Hrows Hlive)
    as [Hwrites Hsame].
  split; [| split; [exact Hwrites | split; [| exact Hsame]]].
  - rewrite writes_syncServers. rewrite newlyCreated_none; [reflexivity |].
    apply (syncServers_stores_every_guild guilds channels stored).
  - rewrite Hwrites. apply forallb_forall.
    now intros w (r & <- & _)%in_map_iff.
Qed.

(* ================================================================== *)
(** * Further properties of the scheduler *)

Import Registry.

Lemma registered_app (r : nat)
    (reg1 reg2 : list RecurringMessageTaskCronJob) :
  registered r (reg1 ++ reg2) = registered r reg1 || registered r reg2.
Proof. unfold registered. apply existsb_app. Qed.

Lemma registered_entries (base n : nat) (rows : list RecurringMessageTask) :
  n < length rows -> registered (base + n) (imap (entryOf base) rows) = true.
Proof.
  intros Hn. destruct (lookup_lt_is_Some_2 rows n Hn) as [t Ht].
  unfold registered. apply existsb_exists. exists (entryOf base n t). split.
  - apply list_elem_of_In, list_elem_of_lookup. exists n.
    now rewrite list_lookup_imap, Ht.
  - cbn. apply Nat.eqb_refl.
Qed.

Lemma entries_in_heap (base : nat) (rows : list RecurringMessageTask)
    (job : RecurringMessageTaskCronJob) :
  In job (imap (entryOf base) rows) -> cronJob job < base + length rows.
Proof.
  intros (n & Hn)%list_elem_of_In%list_elem_of_lookup.
  rewrite list_lookup_imap in Hn.
  destruct (rows !! n) as [t|] eqn:Ht; [| discriminate].
  injection Hn as <-. cbn. apply lookup_lt_Some in Ht. lia.
Qed.

Section RegistryFacts.

Variable validCronTime : string -> bool.

(** After the stop of a pass nothing is armed, provided nothing was armed
    outside the registry before. *)
Lemma afterSleep_silent (i : nat) (w : World) (r : nat) (j : CronJob) :
  runningAreRegistered w ->
  heap (syncCronJobs_afterSleep i w) !! r = Some j -> running j = false.
Proof.
  intros Hinv. unfold syncCronJobs_afterSleep.
  cbn [heap setInvocation setRegistry]. rewrite stopAll_lookup.
  destruct (heap w !! r) as [j0|] eqn:Hr; [| discriminate].
  cbn. intros [= <-].
  destruct (registered r (cronJobs w)) eqn:Hreg; [reflexivity |].
  destruct (running j0) eqn:Hrun; [| reflexivity].
  specialize (Hinv r j0 Hr Hrun). congruence.
Qed.

Lemma step_runningAreRegistered (e : Event) (w w' : World) :
  step validCronTime e w = Some w' ->
  runningAreRegistered w -> runningAreRegistered w'.
Proof.
  intros H Hinv.
  destruct e; cbn [step] in H; repeat case_match; simplify_eq;
    try exact Hinv.
  - (* TimerFires *)
    intros r j Hr Hrun.
    rewrite (afterSleep_silent _ _ _ _ Hinv Hr) in Hrun. discriminate.
  - (* FindReturns *)
    unfold syncCronJobs_afterFind. rewrite scheduleAll_closed.
    intros r j. cbn [heap cronJobs setInvocation setRegistry].
    rewrite registered_app. intros Hr Hrun.
    destruct (decide (r < length (heap w))) as [Hlt|Hge].
    + rewrite lookup_app_l in Hr by exact Hlt.
      now rewrite (Hinv r j Hr Hrun).
    + apply lookup_lt_Some in Hr as Hlen.
      rewrite length_app, length_map in Hlen.
      replace r with (length (heap w) + (r - length (heap w))) by lia.
      rewrite registered_entries by lia. apply orb_true_r.
Qed.

Lemma step_registryInHeap (e : Event) (w w' : World) :
  step validCronTime e w = Some w' ->
  registryInHeap w -> registryInHeap w'.
Proof.
  intros H Hinv.
  destruct e; cbn [step] in H; repeat case_match; simplify_eq;
    try exact Hinv.
  - (* TimerFires *) intros job [].
  - (* FindReturns *)
    unfold syncCronJobs_afterFind. rewrite scheduleAll_closed.
    intros job. cbn [heap cronJobs setInvocation setRegistry].
    rewrite length_app, length_map.
    intros [Hin|Hin]%in_app_or.
    + specialize (Hinv job Hin). lia.
    + now apply entries_in_heap.
Qed.

(** A job, once made, keeps its cron time and its task, and is not
    started again after a stop. *)
Lemma step_job (e : Event) (w w' : World) (r : nat) (j : CronJob) :
  step validCronTime e w = Some w' ->
  heap w !! r = Some j ->
  exists j', heap w' !! r = Some j'
             /\ cronTime j' = cronTime j /\ closure j' = closure j
             /\ (running j' = true -> running j = true).
Proof.
  intros H Hr.
  destruct e; cbn [step] in H; repeat case_match; simplify_eq;
    try (exists j; now repeat split).
  - (* TimerFires *)
    unfold syncCronJobs_afterSleep. cbn [heap setInvocation setRegistry].
    rewrite stopAll_lookup, Hr. cbn.
    destruct (registered r (cronJobs w)); eexists;
      (split; [reflexivity |]); cbn; repeat split;
      first [discriminate | trivial].
  - (* FindReturns *)
    unfold syncCronJobs_afterFind. rewrite scheduleAll_closed.
    cbn [heap setInvocation setRegistry]. exists j.
    rewrite lookup_app_l by exact (lookup_lt_Some _ _ _ Hr).
    now repeat split.
Qed.

(** The jobs that are armed after a pass that ran alone are the jobs it
    made, one for each task the loop reached. *)
Lemma afterPass_running (w : World) (r : nat) (j : CronJob) :
  runningAreRegistered w ->
  heap (afterPass validCronTime w) !! r = Some j ->
  running j = true ->
  exists n t, r = length (heap w) + n
              /\ accepted validCronTime (taskTable w) !! n = Some t
              /\ j = jobOf t.
Proof.
  intros Hinv Hr Hrun. unfold afterPass in Hr. cbn [heap] in Hr.
  destruct (decide (r < length (heap w))) as [Hlt|Hge].
  - rewrite lookup_app_l in Hr by (now rewrite stopAll_length).
    rewrite stopAll_lookup in Hr.
    destruct (heap w !! r) as [j0|] eqn:Hr0; [| discriminate].
    cbn in Hr. injection Hr as <-.
    destruct (registered r (cronJobs w)) eqn:Hreg; [discriminate |].
    specialize (Hinv r j0 Hr0 Hrun). congruence.
  - rewrite lookup_app_r in Hr by (rewrite stopAll_length; lia).
    rewrite stopAll_length, list_lookup_fmap in Hr.
    destruct (accepted validCronTime (taskTable w) !! (r - length (heap w)))
      as [t|] eqn:Ht; [| discriminate].
    injection Hr as <-. exists (r - length (heap w)), t.
    repeat split; [lia | exact Ht].
Qed.

End RegistryFacts.

Section RegistryRuns.

Variable validCronTime : string -> bool.

Lemma run_runningAreRegistered (es : list Event) (w w' : World) :
  run validCronTime es w = Some w' ->
  runningAreRegistered w -> runningAreRegistered w'.
Proof.
  revert w. induction es as [|e es IH]; intros w H Hinv; cbn [run] in H.
  - now injection H as <-.
  - destruct (step validCronTime e w) as [w1|] eqn:E; [| discriminate].
    eauto using step_runningAreRegistered.
Qed.

Lemma run_registryInHeap (es : list Event) (w w' : World) :
  run validCronTime es w = Some w' ->
  registryInHeap w -> registryInHeap w'.
Proof.
  revert w. induction es as [|e es IH]; intros w H Hinv; cbn [run] in H.
  - now injection H as <-.
  - destruct (step validCronTime e w) as [w1|] eqn:E; [| discriminate].
    eauto using step_registryInHeap.
Qed.

Lemma step_silent (e : Event) (w w' : World) :
  step validCronTime e w = Some w' -> pushes e = false ->
  silent w -> silent w'.
Proof.
  intros H He Hs.
  destruct e; cbn [step] in H; repeat case_match; simplify_eq;
    try exact Hs; try discriminate.
  intros r j. unfold syncCronJobs_afterSleep.
  cbn [heap setInvocation setRegistry]. rewrite stopAll_lookup.
  destruct (heap w !! r) as [j0|] eqn:Hr; [| discriminate].
  cbn. intros [= <-]. specialize (Hs r j0 Hr).
  now destruct (registered r (cronJobs w)).
Qed.

Lemma run_silent (es : list Event) (w w' : World) :
  run validCronTime es w = Some w' ->
  forallb (fun e => negb (pushes e)) es = true ->
  silent w -> silent w'.
Proof.
  revert w. induction es as [|e es IH]; intros w H Hes Hs; cbn [run] in H.
  - now injection H as <-.
  - destruct (step validCronTime e w) as [w1|] eqn:E; [| discriminate].
    cbn [forallb] in Hes. apply andb_prop in Hes as [He Hes].
    apply negb_true_iff in He. eauto using step_silent.
Qed.

(** A write of the panel and the pass it sets off end where a pass over
    the written table ends. *)
Lemma thenPass_alone (e : Event) (w w2 : World) :
  step validCronTime e w = Some (syncCronJobs w2) ->
  invocations w2 = invocations w ->
  run validCronTime (thenPass e (length (invocations w))) w
  = Some (afterPass validCronTime w2).
Proof.
  intros He Hinv. rewrite <- (pass_alone validCronTime w2), Hinv.
  unfold thenPass, pass. cbn [run]. now rewrite He.
Qed.

End RegistryRuns.

(** X1. Whatever the order in which calls of [syncCronJobs], their
    awaits, fires and writes of the panel follow one another: if every
    armed job is in the registry and every reference of the registry
    points at a job, this is still so afterwards. No timer is ever left
    armed outside the registry. *)
Theorem armed_jobs_stay_registered
    (validCronTime : string -> bool) (es : list Event) (w w' : World) :
  runningAreRegistered w -> registryInHeap w ->
  run validCronTime es w = Some w' ->
  runningAreRegistered w' /\ registryInHeap w'.
Proof.
  intros Hreg Hheap Hrun.
  eauto using run_runningAreRegistered, run_registryInHeap.
Qed.

Lemma armed_jobs_stay_registered_witness :
  exists w',
    run panelCronTime Scenario.overlapped (Scenario.fresh [Scenario.monday])
    = Some w'
    /\ runningAreRegistered w' /\ registryInHeap w'.
Proof.
  eexists. split; [vm_compute; reflexivity |].
  apply (armed_jobs_stay_registered panelCronTime Scenario.overlapped
           (Scenario.fresh [Scenario.monday])).
  - intros r j Hr. destruct r; discriminate Hr.
  - intros job [].
  - vm_compute. reflexivity.
Defined.

(** X2. A job, once created, keeps its cron time and the task it was
    made for, and is never started again after it has been stopped,
    whatever happens next. *)
Theorem jobs_are_never_changed_or_restarted
    (validCronTime : string -> bool) (es : list Event) (w w' : World)
    (r : nat) (j : CronJob) :
  run validCronTime es w = Some w' ->
  heap w !! r = Some j ->
  exists j', heap w' !! r = Some j'
             /\ cronTime j' = cronTime j /\ closure j' = closure j
             /\ (running j' = true -> running j = true).
Proof.
  revert w j. induction es as [|e es IH]; intros w j H Hr; cbn [run] in H.
  - injection H as <-. exists j. now repeat split.
  - destruct (step validCronTime e w) as [w1|] eqn:E; [| discriminate].
    destruct (step_job _ _ _ _ _ _ E Hr) as (j1 & Hr1 & Ht1 & Hc1 & Hrun1).
    destruct (IH _ _ H Hr1) as (j' & Hr' & Ht' & Hc' & Hrun').
    exists j'. repeat split; [exact Hr' | congruence | congruence | auto].
Qed.

Lemma jobs_are_never_changed_or_restarted_witness :
  exists w' j',
    run panelCronTime (pass 1) Scenario.scheduled = Some w'
    /\ heap w' !! 0 = Some j'
    /\ cronTime j' = "0 0 9 * * MON" /\ closure j' = Scenario.monday.
Proof.
  assert (Hrun : run panelCronTime (pass 1) Scenario.scheduled
                 = Some (afterPass panelCronTime Scenario.scheduled))
    by exact (pass_alone panelCronTime Scenario.scheduled).
  destruct (jobs_are_never_changed_or_restarted panelCronTime (pass 1)
              Scenario.scheduled _ 0 (jobOf Scenario.monday)
              Hrun eq_refl)
    as (j' & Hr & Ht & Hc & _).
  exists (afterPass panelCronTime Scenario.scheduled), j'.
  split; [exact Hrun |]. now repeat split.
Defined.

(** X3. A call of [syncCronJobs] that runs alone repairs the registry:
    from any state in which no job is armed outside the registry (the
    doubled registry two overlapping calls leave is one), the jobs armed
    at its end are the jobs it has made itself, one for each definition
    its loop reached, in the order read. *)
Theorem pass_alone_leaves_one_armed_job_per_task
    (validCronTime : string -> bool) (w : World) :
  runningAreRegistered w ->
  exists w',
    run validCronTime (pass (length (invocations w))) w = Some w'
    /\ (forall r j, heap w' !! r = Some j -> running j = true ->
          exists n t, r = length (heap w) + n
                      /\ accepted validCronTime (taskTable w) !! n = Some t
                      /\ j = jobOf t)
    /\ (forall n t, accepted validCronTime (taskTable w) !! n = Some t ->
          heap w' !! (length (heap w) + n) = Some (jobOf t)
          /\ cronJobs w' !! n = Some (entryOf (length (heap w)) n t)).
Proof.
  intros Hinv. exists (afterPass validCronTime w).
  split; [apply pass_alone |]. split.
  - intros r j. now apply afterPass_running.
  - intros n t Hn. unfold afterPass. cbn [heap cronJobs]. split.
    + rewrite lookup_app_r by (rewrite stopAll_length; lia).
      rewrite stopAll_length, list_lookup_fmap.
      replace (length (heap w) + n - length (heap w)) with n by lia.
      now rewrite Hn.
    + now rewrite list_lookup_imap, Hn.
Qed.

Lemma doubled_is_registered : runningAreRegistered doubled.
Proof.
  intros r j Hr _. destruct r as [|[|r]]; [reflexivity | reflexivity |].
  discriminate Hr.
Qed.

Lemma pass_alone_leaves_one_armed_job_per_task_witness :
  runningAreRegistered doubled
  /\ exists w',
       run panelCronTime (pass 2) doubled = Some w'
       /\ map running (heap w') = [false; false; true].
Proof.
  split; [exact doubled_is_registered |].
  destruct (pass_alone_leaves_one_armed_job_per_task panelCronTime doubled
              doubled_is_registered) as (w' & Hrun & _).
  exists w'. split; [exact Hrun |].
  vm_compute in Hrun. injection Hrun as <-. reflexivity.
Defined.

(** X4. Removing a task row through the panel stops its job: when the
    call of [syncCronJobs] that [@AfterRemove] makes has run alone to its
    end, no armed job is left that was made for the removed row, so no
    trigger of that row can fire any more. *)
Theorem removed_task_has_no_armed_job
    (validCronTime : string -> bool) (w : World) (k : Z) :
  runningAreRegistered w ->
  exists w',
    run validCronTime (thenPass (RemoveTask k) (length (invocations w))) w
    = Some w'
    /\ ~ runningFor k w'
    /\ (forall r j, heap w' !! r = Some j -> task_id (closure j) = k ->
          step validCronTime (Fire r) w' = None).
Proof.
  intros Hinv.
  set (w2 := setTaskTable
               (List.filter (fun r => negb (Z.eqb (task_id r) k))
                  (taskTable w)) w).
  assert (Hoff : forall r j, heap (afterPass validCronTime w2) !! r = Some j ->
                   task_id (closure j) = k -> running j = false).
  { intros r j Hr Hk. destruct (running j) eqn:Hrun; [| reflexivity].
    destruct (afterPass_running validCronTime w2 r j Hinv Hr Hrun)
      as (n & t & _ & Ht & ->).
    apply list_elem_of_lookup_2, list_elem_of_In, accepted_In in Ht.
    cbn [taskTable w2 setTaskTable] in Ht.
    apply filter_In in Ht as [_ Ht]. apply negb_true_iff, Z.eqb_neq in Ht.
    now contradiction Ht. }
  exists (afterPass validCronTime w2).
  split; [now apply thenPass_alone |]. split.
  - intros (r & j & Hr & Hrun & Hk). rewrite (Hoff r j Hr Hk) in Hrun.
    discriminate.
  - intros r j Hr Hk. cbn [step]. now rewrite Hr, (Hoff r j Hr Hk).
Qed.

Lemma removed_task_has_no_armed_job_witness :
  runningAreRegistered Scenario.scheduled
  /\ exists w',
       run panelCronTime (thenPass (RemoveTask 1) 1) Scenario.scheduled
       = Some w'
       /\ ~ runningFor 1 w'.
Proof.
  assert (Hinv : runningAreRegistered Scenario.scheduled).
  { intros r j Hr _. destruct r as [|r]; [reflexivity | discriminate Hr]. }
  split; [exact Hinv |].
  destruct (removed_task_has_no_armed_job panelCronTime Scenario.scheduled 1
              Hinv) as (w' & Hrun & Hnone & _).
  exists w'. now split.
Defined.

(** X5. A task row added through the panel is scheduled without a
    restart: when the parser accepts the cron time of every stored
    definition and of the new one, the call of [syncCronJobs] that
    [@AfterInsert] makes, run alone to its end, returns, and then the new
    row and every row stored before each have an armed job of their own
    definition that the registry refers to under their message identity;
    the registry has one entry per row. *)
Theorem inserted_task_is_scheduled
    (validCronTime : string -> bool) (w : World) (t : RecurringMessageTask) :
  validCronTime (cronTabString t) = true ->
  (forall t', In t' (taskTable w) ->
     validCronTime (cronTabString t') = true) ->
  exists w',
    run validCronTime (thenPass (InsertTask t) (length (invocations w))) w
    = Some w'
    /\ invocations w' !! length (invocations w) = Some Returned
    /\ (forall t', t' = t \/ In t' (taskTable w) ->
          exists r,
            heap w' !! r = Some (jobOf t')
            /\ In {| cronJob := r; taskId := recurringMessageId t' |}
                  (cronJobs w'))
    /\ length (cronJobs w') = S (length (taskTable w)).
Proof.
  intros Hnew Hstored.
  assert (Hvalid : forall t', In t' (taskTable w ++ [t]) ->
                     validCronTime (cronTabString t') = true).
  { intros t' [H | [<- | []]]%in_app_or; [now apply Hstored | exact Hnew]. }
  set (w2 := setTaskTable (taskTable w ++ [t]) w).
  exists (afterPass validCronTime w2).
  split; [now apply thenPass_alone |].
  unfold afterPass. cbn [invocations heap cronJobs taskTable w2 setTaskTable].
  rewrite (accepted_all _ _ Hvalid).
  rewrite (proj2 (forallb_forall _ _) Hvalid).
  split; [apply lookup_last |]. split.
  - intros t' Ht'.
    assert (Hin : In t' (taskTable w ++ [t]))
      by (apply in_or_app; destruct Ht' as [-> | H];
          [right; now left | now left]).
    apply list_elem_of_In, list_elem_of_lookup in Hin as [n Hn].
    exists (length (heap w) + n). split.
    + rewrite lookup_app_r by (rewrite stopAll_length; lia).
      rewrite stopAll_length, list_lookup_fmap.
      replace (length (heap w) + n - length (heap w)) with n by lia.
      now rewrite Hn.
    + apply list_elem_of_In, list_elem_of_lookup. exists n.
      now rewrite list_lookup_imap, Hn.
  - rewrite length_imap, length_app. cbn. lia.
Qed.

Lemma inserted_task_is_scheduled_witness :
  exists w',
    run panelCronTime (thenPass (InsertTask Scenario.friday) 1)
      Scenario.scheduled = Some w'
    /\ (exists r,
          heap w' !! r = Some (jobOf Scenario.friday)
          /\ In {| cronJob := r; taskId := 7 |} (cronJobs w'))
    /\ length (cronJobs w') = 2.
Proof.
  destruct (inserted_task_is_scheduled panelCronTime Scenario.scheduled
              Scenario.friday) as (w' & Hrun & _ & Hjob & Hlen).
  - reflexivity.
  - intros t' [<-|[]]; reflexivity.
  - exists w'. split; [exact Hrun |].
    split; [exact (Hjob Scenario.friday (or_introl eq_refl)) | exact Hlen].
Defined.

(** X6. An edit of a task row through the panel replaces its schedule:
    when the call of [syncCronJobs] that [@AfterUpdate] makes has run
    alone to its end, every armed job made for that row is a job for the
    edited definition, with the cron time compiled from it; the job of
    the old schedule no longer fires. *)
Theorem updated_task_is_rescheduled
    (validCronTime : string -> bool) (w : World) (t : RecurringMessageTask) :
  runningAreRegistered w ->
  exists w',
    run validCronTime (thenPass (UpdateTask t) (length (invocations w))) w
    = Some w'
    /\ (forall r j, heap w' !! r = Some j -> running j = true ->
          task_id (closure j) = task_id t ->
          closure j = t /\ cronTime j = cronTabString t)
    /\ (forall r j, heap w !! r = Some j ->
          step validCronTime (Fire r) w' = None).
Proof.
  intros Hinv.
  set (w2 := setTaskTable
               (map (fun r => if Z.eqb (task_id r) (task_id t) then t else r)
                  (taskTable w)) w).
  exists (afterPass validCronTime w2).
  split; [now apply thenPass_alone |]. split.
  - intros r j Hr Hrun Hid.
    destruct (afterPass_running validCronTime w2 r j Hinv Hr Hrun)
      as (n & t' & _ & Ht' & ->).
    apply list_elem_of_lookup_2, list_elem_of_In, accepted_In in Ht'.
    cbn [taskTable w2 setTaskTable] in Ht'.
    apply in_map_iff in Ht' as (r0 & Hr0 & _). cbn in Hid |- *.
    destruct (Z.eqb_spec (task_id r0) (task_id t)) as [_|Hne];
      subst t'; [now split | contradiction].
  - intros r j Hr. cbn [step].
    destruct (heap (afterPass validCronTime w2) !! r) as [j'|] eqn:Hr';
      [| reflexivity].
    destruct (running j') eqn:Hrun; [| reflexivity].
    destruct (afterPass_running validCronTime w2 r j' Hinv Hr' Hrun)
      as (n & _ & Hn & _).
    apply lookup_lt_Some in Hr. cbn [heap w2 setTaskTable] in Hn. lia.
Qed.

Lemma updated_task_is_rescheduled_witness :
  runningAreRegistered Scenario.scheduled
  /\ exists w',
       run panelCronTime (thenPass (UpdateTask tuesday) 1) Scenario.scheduled
       = Some w'
       /\ step panelCronTime (Fire 0) w' = None.
Proof.
  assert (Hinv : runningAreRegistered Scenario.scheduled).
  { intros r j Hr _. destruct r as [|r]; [reflexivity | discriminate Hr]. }
  split; [exact Hinv |].
  destruct (updated_task_is_rescheduled panelCronTime Scenario.scheduled
              tuesday Hinv) as (w' & Hrun & _ & Hold).
  exists w'. split; [exact Hrun |].
  exact (Hold 0 (jobOf Scenario.monday) eq_refl).
Defined.

(** X7. From the moment the sleep of a call ends until some call runs
    its loop, no trigger can fire: the call has stopped every job and
    emptied the registry before it awaits the task rows, so a trigger
    instant that falls into that wait is lost. *)
Theorem nothing_fires_while_a_pass_awaits_its_rows
    (validCronTime : string -> bool) (i : nat) (es : list Event)
    (w w1 w2 : World) :
  runningAreRegistered w ->
  step validCronTime (TimerFires i) w = Some w1 ->
  forallb (fun e => negb (pushes e)) es = true ->
  run validCronTime es w1 = Some w2 ->
  cronJobs w1 = [] /\ forall r, step validCronTime (Fire r) w2 = None.
Proof.
  intros Hinv Hwake Hes Hrun.
  cbn [step] in Hwake. repeat case_match; simplify_eq.
  split; [reflexivity |].
  assert (Hs : silent w2).
  { apply (run_silent _ _ _ _ Hrun Hes). intros r j.
    now apply afterSleep_silent. }
  intros r. cbn [step]. destruct (heap w2 !! r) as [j|] eqn:Hr;
    [| reflexivity].
  now rewrite (Hs r j Hr).
Qed.

Lemma nothing_fires_while_a_pass_awaits_its_rows_witness :
  runningAreRegistered due
  /\ exists w2,
       run panelCronTime [TimerFires 1; Elapse 5; FindResponds 1] due
       = Some w2
       /\ step panelCronTime (Fire 0) w2 = None.
Proof.
  assert (Hinv : runningAreRegistered due).
  { intros r j Hr _. destruct r as [|r]; [reflexivity | discriminate Hr]. }
  split; [exact Hinv |].
  assert (Hwake : step panelCronTime (TimerFires 1) due
                  = Some (syncCronJobs_afterSleep 1 due))
    by (vm_compute; reflexivity).
  destruct (run panelCronTime [Elapse 5; FindResponds 1]
              (syncCronJobs_afterSleep 1 due)) as [w2|] eqn:Hrun;
    [| vm_compute in Hrun; discriminate Hrun].
  exists w2. split.
  - cbn [run]. rewrite Hwake. exact Hrun.
  - exact (proj2 (nothing_fires_while_a_pass_awaits_its_rows panelCronTime 1
                    [Elapse 5; FindResponds 1] due _ w2 Hinv Hwake eq_refl
                    Hrun) 0).
Defined.

(** X8. A fire never touches the jobs, the registry, the tables or the
    calls in flight, whatever its outcome, so a failed send leaves the job
    scheduled. It either sends exactly one message, the text of the
    stored record to the channel of the stored record (as an embed with
    the stored colour, or as plain text), or it sends nothing and its
    promise is rejected once. *)
Theorem fire_sends_at_most_once_and_keeps_the_jobs
    (validCronTime : string -> bool) (w w' : World) (r : nat) :
  step validCronTime (Fire r) w = Some w' ->
  heap w' = heap w /\ cronJobs w' = cronJobs w
  /\ taskTable w' = taskTable w /\ messageTable w' = messageTable w
  /\ invocations w' = invocations w
  /\ ((exists j m,
         heap w !! r = Some j
         /\ findOne (messageTable w) (recurringMessageId (closure j)) = Some m
         /\ JS.includes (channels w) (channelId m) = true
         /\ outbox w'
            = outbox w
              ++ [if sendAsEmbed m
                  then SendEmbed (channelId m) (text m) (embedColor m)
                  else SendText (channelId m) (text m)]
         /\ rejections w' = rejections w)
      \/ (exists e, outbox w' = outbox w
                    /\ rejections w' = rejections w ++ [e])).
Proof.
  intros H. cbn [step] in H.
  destruct (heap w !! r) as [j|] eqn:Hr; [| discriminate].
  destruct (running j); [| discriminate]. injection H as <-.
  do 5 (split; [reflexivity |]).
  unfold onTick, fetchChannel.
  destruct (findOne (messageTable w) (recurringMessageId (closure j)))
    as [m|] eqn:Hm; [| right; now exists NullRecord].
  destruct (JS.includes (channels w) (channelId m)) eqn:Hc;
    [| right; now exists UnknownChannel].
  destruct (sendAsEmbed m) eqn:Hembed.
  - destruct (embedBuilds w (Database.text m) (embedColor m));
      [| right; now exists EmbedRefused].
    left. exists j, m. rewrite Hembed. now repeat split.
  - left. exists j, m. rewrite Hembed. now repeat split.
Qed.

Lemma fire_sends_at_most_once_and_keeps_the_jobs_witness :
  exists w',
    step panelCronTime (Fire 0) Scenario.scheduled = Some w'
    /\ heap w' = heap Scenario.scheduled
    /\ cronJobs w' = cronJobs Scenario.scheduled.
Proof.
  eexists. split; [reflexivity |].
  destruct (fire_sends_at_most_once_and_keeps_the_jobs panelCronTime
              Scenario.scheduled _ 0 eq_refl) as (Hheap & Hreg & _).
  split; [exact Hheap | exact Hreg].
Defined.

(** X9. Two definitions whose minute, hour and day of week are plain
    texts without a space (every value of the admin panel is one) compile
    to the same cron time only if they have the same minute, hour and
    day: the fields can be read back from the compiled trigger, so two
    different schedules are never fused into one. *)
Theorem cronTabString_keeps_schedules_apart
    (t1 t2 : RecurringMessageTask) :
  JS.plain (utcTimeMinute t1) && spaceFree (utcTimeMinute t1) = true ->
  JS.plain (utcTimeHour t1) && spaceFree (utcTimeHour t1) = true ->
  JS.plain (dayOfWeek t1) && spaceFree (dayOfWeek t1) = true ->
  JS.plain (utcTimeMinute t2) && spaceFree (utcTimeMinute t2) = true ->
  JS.plain (utcTimeHour t2) && spaceFree (utcTimeHour t2) = true ->
  JS.plain (dayOfWeek t2) && spaceFree (dayOfWeek t2) = true ->
  cronTabString t1 = cronTabString t2 ->
  utcTimeMinute t1 = utcTimeMinute t2 /\ utcTimeHour t1 = utcTimeHour t2
  /\ dayOfWeek t1 = dayOfWeek t2.
Proof.
  intros [Pm1 Sm1]%andb_prop [Ph1 Sh1]%andb_prop [Pd1 Sd1]%andb_prop
         [Pm2 Sm2]%andb_prop [Ph2 Sh2]%andb_prop [Pd2 Sd2]%andb_prop Heq.
  apply (f_equal cronFields) in Heq.
  rewrite (cronTabString_plain t1 Pm1 Ph1 Pd1) in Heq.
  rewrite (cronTabString_plain t2 Pm2 Ph2 Pd2) in Heq.
  rewrite !cronFields_sixFields in Heq by assumption.
  injection Heq as Hm Hh Hd. now repeat split.
Qed.

Lemma cronTabString_keeps_schedules_apart_witness :
  cronTabString Scenario.monday
  = cronTabString {| task_id := 9; recurringMessageId := 8;
                     dayOfWeek := "MON"; utcTimeHour := "9";
                     utcTimeMinute := "0" |}
  /\ utcTimeHour Scenario.monday = "9".
Proof.
  split; [reflexivity |].
  exact (proj1 (proj2
    (cronTabString_keeps_schedules_apart Scenario.monday
       {| task_id := 9; recurringMessageId := 8; dayOfWeek := "MON";
          utcTimeHour := "9"; utcTimeMinute := "0" |}
       eq_refl eq_refl eq_refl eq_refl eq_refl eq_refl eq_refl))).
Defined.

(* ================================================================== *)
(** * Further properties of the guild reconciliation *)

Lemma omap_reconciled_upToDate (guilds : list Guild) (seen : list string)
    (rows : list Server) :
  (forall r, In r rows -> In (serverId r) seen /\ upToDate guilds r) ->
  omap (reconciled guilds seen) rows = rows.
Proof.
  induction rows as [|r rows IH]; intros H; [reflexivity |].
  destruct (H r (or_introl eq_refl)) as [Hseen Hup].
  cbn [omap list_omap]. unfold reconciled at 1.
  rewrite (proj2 (includes_In _ _) Hseen), (proj1 Hup),
    (relabel_upToDate _ _ Hup).
  f_equal. apply IH. intros r' Hr'. apply H. now right.
Qed.

(** The filter of [syncServers] taken over the guilds rather than over
    their ids. *)
Lemma newlyCreated_guilds (guilds : list Guild) (stored : list Server) :
  newlyCreatedServerIds guilds stored
  = map guild_id
      (List.filter
         (fun g => negb (JS.includes (map serverId stored) (guild_id g)))
         guilds).
Proof.
  unfold newlyCreatedServerIds, serversIds.
  induction guilds as [|g guilds IH]; [reflexivity |]. cbn [map List.filter].
  destruct (negb (JS.includes (map serverId stored) (guild_id g)));
    cbn [map]; now rewrite IH.
Qed.

Lemma filter_ids_apart (keep : Guild -> bool) (guilds : list Guild) :
  NoDup (map guild_id guilds) ->
  NoDup (map guild_id (List.filter keep guilds)).
Proof.
  induction guilds as [|g guilds IH]; intros Hnd; [constructor |].
  cbn [map] in Hnd. apply NoDup_cons in Hnd as [Hg Hnd].
  cbn [List.filter]. destruct (keep g); [| now apply IH].
  cbn [map]. apply NoDup_cons. split; [| now apply IH].
  intros Hin. apply Hg.
  apply list_elem_of_In, in_map_iff in Hin as (g' & Hid & Hin).
  apply filter_In in Hin as [Hin _].
  apply list_elem_of_In, in_map_iff. now exists g'.
Qed.

(** Inserts for guilds that are not stored, none of them twice, are all
    carried out. *)
Lemma inserts_of_new_guilds (guilds new : list Guild) (table : list Server) :
  NoDup (map guild_id new) ->
  (forall g, In g new ->
     guildName guilds (guild_id g) = Some (guild_name g)) ->
  (forall g, In g new -> ~ In (guild_id g) (map serverId table)) ->
  foldl applyWrite table
    (map (fun id => InsertServer id (guildName guilds id))
       (map guild_id new))
  = table
    ++ map (fun g => {| serverId := guild_id g; name := guild_name g |}) new.
Proof.
  revert table. induction new as [|a new IH]; intros table Hnd Hname Hnew;
    cbn [map foldl]; [now rewrite app_nil_r |].
  cbn [map] in Hnd. apply NoDup_cons in Hnd as [Ha Hnd].
  cbn [applyWrite]. rewrite (Hname a (or_introl eq_refl)).
  destruct (JS.includes (map serverId table) (guild_id a)) eqn:Hin.
  { apply includes_In in Hin. now apply Hnew in Hin; [| left]. }
  rewrite IH; [now rewrite <- app_assoc | exact Hnd | |].
  - intros g Hg. apply Hname. now right.
  - intros g Hg. rewrite map_app. cbn [map serverId].
    intros [H | [H | []]]%in_app_or.
    + now apply (Hnew g (or_intror Hg)).
    + apply Ha. rewrite H. apply list_elem_of_In. now apply in_map.
Qed.

(** X10. After a call of the first revision of [syncServers], with its
    statements carried out, the stored servers are the guilds the bot is
    in: a server id is stored if and only if it is the id of a guild of
    the cache, and every stored row bears the name its guild has now. *)
Theorem first_revision_mirrors_the_guilds
    (guilds : list Guild) (channels : list Channel) (stored : list Server) :
  (forall id,
     In id (map serverId
              (commit stored (Initial.syncServers guilds channels stored)))
     <-> In id (serversIds guilds))
  /\ (forall r,
        In r (commit stored (Initial.syncServers guilds channels stored)) ->
        guildName guilds (serverId r) = Some (name r)).
Proof.
  destruct (first_call_settles guilds channels stored) as [Hrows Hlive].
  split.
  - intros id. split; [| apply Hlive].
    intros (r & <- & Hr)%in_map_iff. apply includes_In.
    exact (proj1 (Hrows r Hr)).
  - intros r Hr. exact (proj2 (Hrows r Hr)).
Qed.

(** X11. Where no guild has been left and no name has changed (every
    stored row is the row of a guild of the cache under its current
    name), the first revision of [syncServers] and the scheduler-bearing
    one leave the same stored servers: they differ only in what they do
    to stale and renamed rows. *)
Theorem revisions_agree_on_current_rows
    (guilds : list Guild) (channels : list Channel) (stored : list Server) :
  (forall r, In r stored -> upToDate guilds r) ->
  commit stored (Initial.syncServers guilds channels stored)
  = commit stored (syncServers guilds channels stored).
Proof.
  intros Hrows. unfold commit.
  rewrite writes_initial, foldl_app, loop_commit, writes_syncServers.
  rewrite omap_reconciled_upToDate; [reflexivity |].
  intros r Hr. split; [now apply in_map | now apply Hrows].
Qed.

Lemma revisions_agree_on_current_rows_witness :
  (forall r, In r [Scenario.storedA; Scenario.storedB] ->
     upToDate [Scenario.guildA; Scenario.guildB; Scenario.guildC] r)
  /\ commit [Scenario.storedA; Scenario.storedB]
       (Initial.syncServers
          [Scenario.guildA; Scenario.guildB; Scenario.guildC] []
          [Scenario.storedA; Scenario.storedB])
     = [Scenario.storedA; Scenario.storedB;
        {| serverId := "C"; name := "Gamma" |}].
Proof.
  assert (Hrows : forall r, In r [Scenario.storedA; Scenario.storedB] ->
            upToDate [Scenario.guildA; Scenario.guildB; Scenario.guildC] r).
  { intros r [<-|[<-|[]]]; split; reflexivity. }
  split; [exact Hrows |].
  rewrite (revisions_agree_on_current_rows
             [Scenario.guildA; Scenario.guildB; Scenario.guildC] []
             [Scenario.storedA; Scenario.storedB] Hrows).
  reflexivity.
Defined.

(** X12. With a guild cache that lists no guild twice, the store
    refuses none of the inserts [syncServers] sends: the filter has
    dropped every stored id, so no insert meets the unique [serverId]
    column. Each statement adds a row: afterwards the stored servers are
    the rows stored before and one row for each guild that was not
    stored, under its id and name, and there are as many more rows as
    statements were sent. *)
Theorem syncServers_inserts_are_never_refused
    (guilds : list Guild) (channels : list Channel) (stored : list Server) :
  NoDup (serversIds guilds) ->
  (forall r,
     In r (commit stored (syncServers guilds channels stored))
     <-> In r stored
         \/ exists g, In g guilds
                      /\ ~ In (guild_id g) (map serverId stored)
                      /\ r = {| serverId := guild_id g;
                                name := guild_name g |})
  /\ length (commit stored (syncServers guilds channels stored))
     = length stored + length (writes (syncServers guilds channels stored)).
Proof.
  intros Hnd. unfold commit.
  rewrite writes_syncServers, newlyCreated_guilds.
  rewrite inserts_of_new_guilds.
  - split.
    + intros r. rewrite in_app_iff, in_map_iff.
      split; (intros [H | H]; [now left | right]).
      * destruct H as (g & <- & [Hg Hkeep]%filter_In). exists g.
        apply negb_true_iff in Hkeep.
        rewrite <- not_true_iff_false, includes_In in Hkeep. now repeat split.
      * destruct H as (g & Hg & Hnew & ->). exists g.
        split; [reflexivity |]. apply filter_In. split; [exact Hg |].
        apply negb_true_iff.
        now rewrite <- not_true_iff_false, includes_In.
    + now rewrite length_app, !length_map.
  - now apply filter_ids_apart.
  - intros g [Hg _]%filter_In. now apply guildName_own.
  - intros g [_ Hkeep]%filter_In. apply negb_true_iff in Hkeep.
    now rewrite <- not_true_iff_false, includes_In in Hkeep.
Qed.

Lemma syncServers_inserts_are_never_refused_witness :
  NoDup (serversIds [Scenario.guildA; Scenario.guildB; Scenario.guildC])
  /\ length (commit [Scenario.storedA]
               (syncServers
                  [Scenario.guildA; Scenario.guildB; Scenario.guildC] []
                  [Scenario.storedA]))
     = length [Scenario.storedA]
       + length (writes (syncServers
                    [Scenario.guildA; Scenario.guildB; Scenario.guildC] []
                    [Scenario.storedA])).
Proof.
  assert (Hnd : NoDup (serversIds [Scenario.guildA; Scenario.guildB;
                                   Scenario.guildC])).
  { cbn. repeat constructor; rewrite ?list_elem_of_In; cbn;
      intuition congruence. }
  split; [exact Hnd |].
  exact (proj2 (syncServers_inserts_are_never_refused
                  [Scenario.guildA; Scenario.guildB; Scenario.guildC] []
                  [Scenario.storedA] Hnd)).
Defined.


(* ================================================================== *)
(** * Properties of the moderation handlers *)

Import Moderation.

Lemma stripPrefix_Some (p s r : string) :
  JS.stripPrefix p s = Some r <-> s = p +:+ r.
Proof.
  split.
  - revert s. induction p as [|a p IH]; intros s H; cbn in *.
    + now injection H as ->.
    + destruct s as [|b s]; [discriminate |].
      destruct (Ascii.eqb_spec a b) as [->|_]; [| discriminate].
      now rewrite (IH s H).
  - intros ->. apply stripPrefix_append.
Qed.

Lemma startsWith_spec (s p : string) :
  startsWith s p = true <-> exists rest, s = p +:+ rest.
Proof.
  unfold startsWith. split.
  - destruct (JS.stripPrefix p s) as [r|] eqn:E; [| discriminate].
    intros _. exists r. now apply stripPrefix_Some.
  - intros (r & ->). now rewrite stripPrefix_append.
Qed.

Lemma slice_append (x s : string) : slice (String.length x) (x +:+ s) = s.
Proof. induction x as [|c x IH]; cbn; [now destruct s | exact IH]. Qed.

Lemma slice_short (n : nat) (s : string) :
  String.length s <= n -> slice n s = EmptyString.
Proof.
  revert n. induction s as [|c s IH]; intros n H; destruct n as [|n];
    cbn in *; try reflexivity; try lia.
  apply IH. lia.
Qed.

(** The first piece of a text that begins with a word. *)
Lemma splitSpaces_word (word tail : string) :
  spaceFree word = true ->
  tail = EmptyString \/ (exists t, tail = String " "%char t) ->
  exists pieces, splitSpaces (word +:+ tail) = word :: pieces.
Proof.
  unfold splitSpaces. intros Hword Htail.
  induction word as [|c word IH].
  - destruct Htail as [->|(t & ->)]; cbn; eauto.
  - cbn [spaceFree] in Hword. apply andb_prop in Hword as [Hc Hword].
    apply negb_true_iff in Hc. destruct (IH Hword) as (pieces & Hp).
    exists pieces. cbn [String.append splitFrom]. now rewrite Hc, Hp.
Qed.

Lemma findKeywords_app (t1 t2 : list Keyword) (channel : string) :
  findKeywords (t1 ++ t2) channel
  = findKeywords t1 channel ++ findKeywords t2 channel.
Proof. unfold findKeywords. apply List.filter_app. Qed.

Lemma findKeywords_none (others : list Keyword) (channel : string) :
  (forall k, In k others ->
     channelId k <> channel \/ kind k <> "startswith") ->
  findKeywords others channel = [].
Proof.
  intros H. unfold findKeywords.
  induction others as [|k others IH]; [reflexivity |].
  cbn [List.filter].
  rewrite IH by (intros k' Hk'; apply H; now right).
  destruct (H k (or_introl eq_refl)) as [Hc|Hk].
  - apply String.eqb_neq in Hc. now rewrite Hc.
  - apply String.eqb_neq in Hk. rewrite Hk. now rewrite andb_false_r.
Qed.

Lemma findKeywords_In (table : list Keyword) (channel : string)
    (k : Keyword) :
  In k (findKeywords table channel) <->
  In k table /\ channelId k = channel /\ kind k = "startswith".
Proof.
  unfold findKeywords. rewrite filter_In, andb_true_iff, !String.eqb_eq.
  tauto.
Qed.

(** X13. The keywords of other channels, and rows of another kind than
    'startswith', have no part in what becomes of a message, in the
    scheduler-bearing handler and in the last one: with them or without
    them the handler does the same. *)
Theorem keywords_of_other_channels_do_not_count
    (COMMAND_PREFIX : option string) (messageCommands : list string)
    (table others : list Keyword) (roles : list WhitelistedStaffRole)
    (m : Message) :
  (forall k, In k others ->
     channelId k <> message_channelId m \/ kind k <> "startswith") ->
  messageCreate COMMAND_PREFIX messageCommands (others ++ table) m
  = messageCreate COMMAND_PREFIX messageCommands table m
  /\ messageCreate COMMAND_PREFIX messageCommands (table ++ others) m
     = messageCreate COMMAND_PREFIX messageCommands table m
  /\ Latest.messageCreate COMMAND_PREFIX messageCommands (others ++ table)
       roles m
     = Latest.messageCreate COMMAND_PREFIX messageCommands table roles m.
Proof.
  intros H. unfold messageCreate, Latest.messageCreate.
  rewrite !findKeywords_app, (findKeywords_none _ _ H), app_nil_r.
  now repeat split.
Qed.

Lemma keywords_of_other_channels_do_not_count_witness :
  messageCreate (Some "!") ["ping"]
    ([{| kind := "startswith"; text := "WTS"; channelId := "market";
         serverId := "A" |}] ++ [])
    {| author_bot := false; author_username := "ann"; content := "hello";
       message_channelId := "lobby"; message_guildId := Some "A";
       member_roles := [] |}
  = messageCreate (Some "!") ["ping"] []
      {| author_bot := false; author_username := "ann"; content := "hello";
         message_channelId := "lobby"; message_guildId := Some "A";
         member_roles := [] |}.
Proof.
  refine (proj1 (keywords_of_other_channels_do_not_count (Some "!") ["ping"]
                   [] _ [] _ _)).
  intros k [<-|[]]. left. discriminate.
Defined.

(** X14. The scheduler-bearing handler deletes a message exactly when
    its author is not a bot, the channel has at least one 'startswith'
    keyword, and the text begins with none of the channel's keywords. *)
Theorem message_is_deleted_iff_no_keyword_begins_it
    (COMMAND_PREFIX : option string) (messageCommands : list string)
    (table : list Keyword) (m : Message) :
  In DeleteMessage (messageCreate COMMAND_PREFIX messageCommands table m)
  <-> author_bot m = false
      /\ (exists k, In k table /\ channelId k = message_channelId m
                    /\ kind k = "startswith")
      /\ (forall k, In k table -> channelId k = message_channelId m ->
            kind k = "startswith" ->
            ~ exists rest, content m = text k +:+ rest).
Proof.
  unfold messageCreate.
  assert (Hnone : noneMatch (findKeywords table (message_channelId m)) m
                  = true <->
            (exists k, In k (findKeywords table (message_channelId m)))
            /\ (forall k, In k (findKeywords table (message_channelId m)) ->
                  ~ exists rest, content m = text k +:+ rest)).
  { unfold noneMatch. rewrite andb_true_iff, forallb_forall, Nat.ltb_lt.
    assert (Hlen : 0 < length (findKeywords table (message_channelId m))
                   <-> exists k,
                         In k (findKeywords table (message_channelId m))).
    { destruct (findKeywords table (message_channelId m)) as [|k ks]; cbn.
      - split; [lia | now intros (k & [])].
      - split; [intros _; exists k; now left | lia]. }
    rewrite Hlen. split; intros [Hsome Hall]; (split; [exact Hsome |]);
      intros k Hk; specialize (Hall k Hk).
    - rewrite <- startsWith_spec. now apply negb_true_iff in Hall as ->.
    - rewrite <- startsWith_spec in Hall.
      now destruct (startsWith (content m) (text k)). }
  assert (Hdispatch : ~ In DeleteMessage
                        (dispatch COMMAND_PREFIX messageCommands m)).
  { unfold dispatch. repeat case_match; cbn; intuition discriminate. }
  destruct (author_bot m).
  - split; [intros [] | intros [[=] _]].
  - destruct (noneMatch (findKeywords table (message_channelId m)) m) eqn:E.
    + destruct (proj1 Hnone eq_refl) as [(k & Hk) Hall].
      split; [intros _ | now left].
      split; [reflexivity |]. split.
      * exists k. now apply findKeywords_In.
      * intros k' Hin Hc Hkind. apply Hall. now apply findKeywords_In.
    + split; [intros H; now apply Hdispatch in H |].
      intros (_ & (k & Hk) & Hall).
      assert (false = true); [| discriminate].
      apply Hnone. split.
      * exists k. now apply findKeywords_In.
      * intros k' (Hin & Hc & Hkind)%findKeywords_In. now apply Hall.
Qed.

(** X15. A 'startswith' keyword with an empty text switches the filter
    of its channel off: every text begins with the empty text, so no
    message of that channel is deleted by either handler, and each goes
    on to the command dispatch. *)
Theorem empty_keyword_disables_the_filter
    (COMMAND_PREFIX : option string) (messageCommands : list string)
    (table : list Keyword) (roles : list WhitelistedStaffRole)
    (k : Keyword) (m : Message) :
  In k table -> kind k = "startswith" -> text k = EmptyString ->
  message_channelId m = channelId k ->
  messageCreate COMMAND_PREFIX messageCommands table m
  = (if author_bot m then []
     else dispatch COMMAND_PREFIX messageCommands m)
  /\ ~ In DeleteMessage
         (Latest.messageCreate COMMAND_PREFIX messageCommands table roles m).
Proof.
  intros Hin Hkind Htext Hchan.
  assert (Hk : In k (findKeywords table (message_channelId m)))
    by (apply findKeywords_In; now rewrite Hchan).
  assert (Hnone : noneMatch (findKeywords table (message_channelId m)) m
                  = false).
  { unfold noneMatch. apply andb_false_iff. right.
    apply not_true_iff_false. rewrite forallb_forall. intros Hall.
    specialize (Hall k Hk). rewrite Htext in Hall.
    now destruct (content m). }
  assert (Hdispatch : ~ In DeleteMessage
                        (dispatch COMMAND_PREFIX messageCommands m)).
  { unfold dispatch. repeat case_match; cbn; intuition discriminate. }
  unfold messageCreate, Latest.messageCreate. rewrite Hnone, andb_false_r.
  split; [reflexivity |].
  destruct (author_bot m || negb (truthy (message_guildId m)));
    [intros [] | exact Hdispatch].
Qed.

Lemma empty_keyword_disables_the_filter_witness :
  messageCreate None []
    [{| kind := "startswith"; text := "WTS"; channelId := "market";
        serverId := "A" |};
     {| kind := "startswith"; text := ""; channelId := "market";
        serverId := "A" |}]
    {| author_bot := false; author_username := "ann"; content := "hello";
       message_channelId := "market"; message_guildId := Some "A";
       member_roles := [] |}
  = [].
Proof.
  refine (proj1 (empty_keyword_disables_the_filter None []
                   [{| kind := "startswith"; text := "WTS";
                       channelId := "market"; serverId := "A" |};
                    {| kind := "startswith"; text := "";
                       channelId := "market"; serverId := "A" |}] []
                   {| kind := "startswith"; text := "";
                      channelId := "market"; serverId := "A" |}
                   {| author_bot := false; author_username := "ann";
                      content := "hello"; message_channelId := "market";
                      message_guildId := Some "A"; member_roles := [] |}
                   _ eq_refl eq_refl eq_refl)).
  right. now left.
Defined.

(** X16. What the scheduler-bearing handler does to a message is one of
    three things: nothing; the deletion followed by the notice to the
    author; or the run of one command, whose name is not empty and is a
    name [messageCommands] knows. A deleted message is never run as a
    command, and a message of a bot sets nothing off. *)
Theorem message_is_deleted_or_run_never_both
    (COMMAND_PREFIX : option string) (messageCommands : list string)
    (table : list Keyword) (m : Message) :
  (author_bot m = true ->
   messageCreate COMMAND_PREFIX messageCommands table m = [])
  /\ (messageCreate COMMAND_PREFIX messageCommands table m = []
      \/ messageCreate COMMAND_PREFIX messageCommands table m
         = [DeleteMessage;
            SendToAuthor
              (notice (findKeywords table (message_channelId m)) m)]
      \/ exists commandName,
           messageCreate COMMAND_PREFIX messageCommands table m
           = [Run commandName]
           /\ In commandName messageCommands
           /\ commandName <> EmptyString
           /\ truthy COMMAND_PREFIX = true).
Proof.
  unfold messageCreate. split; [now intros -> |].
  destruct (author_bot m); [now left |].
  destruct (noneMatch _ m); [right; now left |].
  unfold dispatch.
  destruct (truthy COMMAND_PREFIX); [| now left]. cbn [negb].
  destruct (splitSpaces _) as [|commandName args]; [now left |].
  destruct (truthy (Some commandName)) eqn:Hname; [| now left]. cbn [negb].
  destruct (JS.includes messageCommands commandName) eqn:Hin; [| now left].
  right; right. exists commandName. repeat split.
  - now apply includes_In.
  - intros ->. discriminate Hname.
Qed.

(** X17. The command prefix is never compared with the text: the handler
    drops as many characters as the prefix has, whatever they are, and
    runs the command named by the word that follows. So with the prefix
    "!" the text "?ping now" runs ping as "!ping now" does. *)
Theorem prefix_is_skipped_not_checked
    (prefix : string) (messageCommands : list string) (m : Message)
    (x commandName tail : string) :
  prefix <> EmptyString ->
  content m = x +:+ commandName +:+ tail ->
  String.length x = String.length prefix ->
  spaceFree commandName = true -> commandName <> EmptyString ->
  tail = EmptyString \/ (exists t, tail = String " "%char t) ->
  In commandName messageCommands ->
  dispatch (Some prefix) messageCommands m = [Run commandName].
Proof.
  intros Hprefix Hcontent Hlen Hword Hname Htail Hin.
  unfold dispatch. cbn [truthy default from_option id].
  apply String.eqb_neq in Hprefix as ->. cbn [negb].
  rewrite Hcontent, <- Hlen, slice_append.
  destruct (splitSpaces_word commandName tail Hword Htail) as (args & ->).
  apply String.eqb_neq in Hname as ->. cbn [negb].
  now rewrite (proj2 (includes_In _ _) Hin).
Qed.

Lemma prefix_is_skipped_not_checked_witness :
  dispatch (Some "!") ["ping"]
    {| author_bot := false; author_username := "ann";
       content := "?ping now"; message_channelId := "lobby";
       message_guildId := Some "A"; member_roles := [] |}
  = [Run "ping"].
Proof.
  apply (prefix_is_skipped_not_checked "!" ["ping"] _ "?" "ping" " now").
  - discriminate.
  - reflexivity.
  - reflexivity.
  - reflexivity.
  - discriminate.
  - right. now exists "now".
  - now left.
Defined.

(** X18. No command runs for a text that is no longer than the prefix,
    nor for a text in which a space follows the characters taken for the
    prefix ("! ping"): the first piece of the split is then empty. *)
Theorem no_command_without_a_word_after_the_prefix
    (prefix : string) (messageCommands : list string) (m : Message) :
  String.length (content m) <= String.length prefix
  \/ (exists x t, content m = x +:+ String " "%char t
                  /\ String.length x = String.length prefix) ->
  dispatch (Some prefix) messageCommands m = [].
Proof.
  intros H. unfold dispatch. cbn [truthy default from_option id].
  destruct (String.eqb prefix EmptyString); [reflexivity |]. cbn [negb].
  destruct H as [Hshort | (x & t & -> & <-)].
  - now rewrite (slice_short _ _ Hshort).
  - now rewrite slice_append.
Qed.

Lemma no_command_without_a_word_after_the_prefix_witness :
  dispatch (Some "!") ["ping"]
    {| author_bot := false; author_username := "ann";
       content := "! ping"; message_channelId := "lobby";
       message_guildId := Some "A"; member_roles := [] |}
  = [].
Proof.
  apply (no_command_without_a_word_after_the_prefix "!" ["ping"]).
  right. exists "!", "ping". now split.
Defined.

(** X19. The last revision of the message handler differs from the
    scheduler-bearing one in two ways only: it leaves messages outside a
    guild alone, and it does not hold a member with a whitelisted staff
    role to the keywords. For every other message the two do the same. *)
Theorem last_handler_exempts_staff_and_direct_messages
    (COMMAND_PREFIX : option string) (messageCommands : list string)
    (table : list Keyword) (roles : list WhitelistedStaffRole)
    (m : Message) :
  Latest.messageCreate COMMAND_PREFIX messageCommands table roles m
  = if truthy (message_guildId m) then
      if Latest.hasRole roles m then
        if author_bot m then []
        else dispatch COMMAND_PREFIX messageCommands m
      else messageCreate COMMAND_PREFIX messageCommands table m
    else [].
Proof.
  unfold Latest.messageCreate, messageCreate.
  destruct (author_bot m), (truthy (message_guildId m)),
    (Latest.hasRole roles m); reflexivity.
Qed.

Lemma length_append (a b : string) :
  String.length (a +:+ b) = String.length a + String.length b.
Proof. induction a as [|c a IH]; cbn; [reflexivity | now rewrite IH]. Qed.

Lemma listed_ofGuild (rows : list WhitelistedEmoji) (guild emoji : string) :
  listed (ofGuild rows guild) emoji = true <->
  exists e, In e rows /\ Database.serverId (server e) = guild
            /\ emojiUnicodeOrId e = emoji.
Proof.
  unfold listed, ofGuild. rewrite existsb_exists. split.
  - intros (e & (He & Hg%String.eqb_eq)%filter_In & Hk%String.eqb_eq).
    now exists e.
  - intros (e & He & Hg & Hk). exists e. split.
    + apply filter_In. split; [exact He | now apply String.eqb_eq].
    + now apply String.eqb_eq.
Qed.

(** A reaction in a guild is kept for a row of that guild that holds its
    key, and removed otherwise. *)
Lemma reaction_kept_or_removed
    (whitelist : list WhitelistedEmoji) (r : Reaction) (guild : string) :
  reaction_guildId r = Some guild -> guild <> EmptyString ->
  (exists e, In e whitelist /\ Database.serverId (server e) = guild
             /\ emojiUnicodeOrId e = emojiKey r)
  \/ messageReactionAdd whitelist r = [RemoveReaction].
Proof.
  intros Hg Hne. unfold messageReactionAdd. rewrite Hg.
  cbn [truthy default from_option id].
  apply String.eqb_neq in Hne as ->. cbn [negb].
  destruct (listed (ofGuild whitelist guild) (emojiKey r)) eqn:E;
    [left; now apply listed_ofGuild | now right].
Qed.

(** X20. In the scheduler-bearing handler a reaction in a guild is left
    in place exactly when some whitelist row of that very guild holds its
    emoji key; otherwise it is removed. A row of another server never
    allows it. *)
Theorem reaction_is_kept_iff_its_guild_lists_it
    (whitelist : list WhitelistedEmoji) (r : Reaction) (guild : string) :
  reaction_guildId r = Some guild -> guild <> EmptyString ->
  (messageReactionAdd whitelist r = []
   <-> exists e, In e whitelist /\ Database.serverId (server e) = guild
                 /\ emojiUnicodeOrId e = emojiKey r)
  /\ (messageReactionAdd whitelist r = []
      \/ messageReactionAdd whitelist r = [RemoveReaction]).
Proof.
  intros Hg Hne. unfold messageReactionAdd. rewrite Hg.
  cbn [truthy default from_option id].
  apply String.eqb_neq in Hne as ->. cbn [negb].
  rewrite <- listed_ofGuild.
  destruct (listed (ofGuild whitelist guild) (emojiKey r)); cbn [negb].
  - split; [now split | now left].
  - split; [split; discriminate | now right].
Qed.

Lemma reaction_is_kept_iff_its_guild_lists_it_witness :
  messageReactionAdd
    [{| emojiUnicodeOrId := "<:pog:12>"; server := Scenario.storedB |}]
    {| reaction_guildId := Some "A"; emoji_id := Some "12";
       emoji_name := "pog" |}
  = [RemoveReaction].
Proof.
  destruct (reaction_is_kept_iff_its_guild_lists_it
              [{| emojiUnicodeOrId := "<:pog:12>";
                  server := Scenario.storedB |}]
              {| reaction_guildId := Some "A"; emoji_id := Some "12";
                 emoji_name := "pog" |} "A" eq_refl)
    as [Hiff [Hkept|Hremoved]].
  - discriminate.
  - apply Hiff in Hkept as (e & [<-|[]] & Hserver & _). discriminate Hserver.
  - exact Hremoved.
Defined.

(** X21. A custom emoji is known to the handlers by the key
    "<:name:id>" only: whitelist rows that hold its bare name or its
    bare id do not allow it, and the reaction is removed. *)
Theorem custom_emoji_needs_its_full_key
    (whitelist : list WhitelistedEmoji) (r : Reaction) (guild emojiId : string) :
  reaction_guildId r = Some guild -> guild <> EmptyString ->
  emoji_id r = Some emojiId -> emojiId <> EmptyString ->
  (forall e, In e whitelist ->
     emojiUnicodeOrId e = emoji_name r \/ emojiUnicodeOrId e = emojiId) ->
  emojiKey r = "<:" +:+ emoji_name r +:+ ":" +:+ emojiId +:+ ">"
  /\ messageReactionAdd whitelist r = [RemoveReaction].
Proof.
  intros Hg Hne Hid Hidne Hrows.
  assert (Hkey : emojiKey r = "<:" +:+ emoji_name r +:+ ":" +:+ emojiId +:+ ">").
  { unfold emojiKey. rewrite Hid. cbn [truthy default from_option id].
    now apply String.eqb_neq in Hidne as ->. }
  split; [exact Hkey |].
  destruct (reaction_kept_or_removed whitelist r guild
              Hg Hne) as [Hkept | Hremoved]; [| exact Hremoved].
  destruct Hkept as (e & He & _ & Hk). exfalso.
  rewrite Hkey in Hk. apply (f_equal String.length) in Hk.
  rewrite !length_append in Hk. cbn [String.length] in Hk.
  destruct (Hrows e He) as [Heq|Heq]; rewrite Heq in Hk; lia.
Qed.

Lemma custom_emoji_needs_its_full_key_witness :
  messageReactionAdd
    [{| emojiUnicodeOrId := "pog"; server := Scenario.storedA |};
     {| emojiUnicodeOrId := "12"; server := Scenario.storedA |}]
    {| reaction_guildId := Some "A"; emoji_id := Some "12";
       emoji_name := "pog" |}
  = [RemoveReaction].
Proof.
  refine (proj2 (custom_emoji_needs_its_full_key _
                   {| reaction_guildId := Some "A"; emoji_id := Some "12";
                      emoji_name := "pog" |} "A" "12" eq_refl _ eq_refl _ _)).
  - discriminate.
  - discriminate.
  - intros e [<-|[<-|[]]]; [now left | now right].
Defined.

(** X22. For a server in blacklist mode the last revision never looks at
    the whitelist: a reaction is removed exactly when a blacklist row of
    that very guild holds its emoji key, and is left in place otherwise,
    whatever the whitelist holds. *)
Theorem blacklist_mode_ignores_the_whitelist
    (servers : list ServerSettings) (whitelist blacklist : list WhitelistedEmoji)
    (r : Reaction) (guild : string) (s : ServerSettings) :
  reaction_guildId r = Some guild -> guild <> EmptyString ->
  Latest.findServer servers guild = Some s ->
  blacklistModeEnabled s = true ->
  (Latest.messageReactionAdd servers whitelist blacklist r = [RemoveReaction]
   <-> exists e, In e blacklist /\ Database.serverId (server e) = guild
                 /\ emojiUnicodeOrId e = emojiKey r)
  /\ (forall whitelist',
        Latest.messageReactionAdd servers whitelist' blacklist r
        = Latest.messageReactionAdd servers whitelist blacklist r)
  /\ (Latest.messageReactionAdd servers whitelist blacklist r = []
      \/ Latest.messageReactionAdd servers whitelist blacklist r
         = [RemoveReaction]).
Proof.
  intros Hg Hne Hs Hmode. unfold Latest.messageReactionAdd.
  rewrite Hg. cbn [truthy default from_option id].
  apply String.eqb_neq in Hne as ->. cbn [negb]. rewrite Hs, Hmode.
  rewrite <- listed_ofGuild.
  destruct (listed (ofGuild blacklist guild) (emojiKey r)).
  - repeat split; auto.
  - repeat split; auto; discriminate.
Qed.

Lemma blacklist_mode_ignores_the_whitelist_witness :
  Latest.messageReactionAdd
    [{| settings_serverId := "A"; blacklistModeEnabled := true |}]
    [] [{| emojiUnicodeOrId := "x"; server := Scenario.storedA |}]
    {| reaction_guildId := Some "A"; emoji_id := None; emoji_name := "y" |}
  = Latest.messageReactionAdd
      [{| settings_serverId := "A"; blacklistModeEnabled := true |}]
      [{| emojiUnicodeOrId := "z"; server := Scenario.storedA |}]
      [{| emojiUnicodeOrId := "x"; server := Scenario.storedA |}]
      {| reaction_guildId := Some "A"; emoji_id := None; emoji_name := "y" |}.
Proof.
  refine (proj1 (proj2
    (blacklist_mode_ignores_the_whitelist
       [{| settings_serverId := "A"; blacklistModeEnabled := true |}]
       [{| emojiUnicodeOrId := "z"; server := Scenario.storedA |}]
       [{| emojiUnicodeOrId := "x"; server := Scenario.storedA |}]
       {| reaction_guildId := Some "A"; emoji_id := None; emoji_name := "y" |}
       "A" {| settings_serverId := "A"; blacklistModeEnabled := true |}
       eq_refl _ eq_refl eq_refl)) []).
  discriminate.
Defined.

(** X23. A guild for which no [Server] row is stored is treated by the
    last revision as a guild in whitelist mode: the blacklist is not
    looked at, the handler does what the scheduler-bearing one does, and
    when no whitelist row belongs to the guild every reaction in it is
    removed. *)
Theorem unknown_guild_is_in_whitelist_mode
    (servers : list ServerSettings) (whitelist blacklist : list WhitelistedEmoji)
    (r : Reaction) (guild : string) :
  reaction_guildId r = Some guild -> guild <> EmptyString ->
  Latest.findServer servers guild = None ->
  Latest.messageReactionAdd servers whitelist blacklist r
  = messageReactionAdd whitelist r
  /\ ((forall e, In e whitelist -> Database.serverId (server e) <> guild) ->
      Latest.messageReactionAdd servers whitelist blacklist r
      = [RemoveReaction]).
Proof.
  intros Hg Hne Hs.
  assert (Hsame : Latest.messageReactionAdd servers whitelist blacklist r
                  = messageReactionAdd whitelist r).
  { unfold Latest.messageReactionAdd, messageReactionAdd.
    rewrite Hg. cbn [truthy default from_option id]. now rewrite Hs. }
  split; [exact Hsame |]. intros Hrows. rewrite Hsame.
  destruct (reaction_kept_or_removed whitelist r guild Hg Hne)
    as [(e & He & Hserver & _) | Hremoved]; [| exact Hremoved].
  now contradiction (Hrows e He).
Qed.

Lemma unknown_guild_is_in_whitelist_mode_witness :
  Latest.messageReactionAdd [] []
    [{| emojiUnicodeOrId := "x"; server := Scenario.storedA |}]
    {| reaction_guildId := Some "A"; emoji_id := None; emoji_name := "y" |}
  = [RemoveReaction].
Proof.
  refine (proj2 (unknown_guild_is_in_whitelist_mode [] []
                   [{| emojiUnicodeOrId := "x"; server := Scenario.storedA |}]
                   {| reaction_guildId := Some "A"; emoji_id := None;
                      emoji_name := "y" |} "A" eq_refl _ eq_refl) _).
  - discriminate.
  - intros e [].
Defined.

(* ================================================================== *)
(** * The replacement of a placeholder *)

Lemma splitAtFirst_spec (p s : string) :
  match JS.splitAtFirst p s with
  | Some (before, after) =>
      s = before +:+ p +:+ after
      /\ forall b a, s = b +:+ p +:+ a ->
           String.length before <= String.length b
  | None => forall b a, s <> b +:+ p +:+ a
  end.
Proof.
  induction s as [|c s IH]; cbn [JS.splitAtFirst].
  - destruct (JS.stripPrefix p EmptyString) as [rest|] eqn:E.
    + apply stripPrefix_Some in E. split; [exact E | intros; cbn; lia].
    + intros b a H. destruct b; [| discriminate].
      cbn [String.append] in H.
      apply (proj2 (stripPrefix_Some _ _ _)) in H. congruence.
  - destruct (JS.stripPrefix p (String c s)) as [rest|] eqn:E.
    + apply stripPrefix_Some in E. split; [exact E | intros; cbn; lia].
    + assert (Hhead : forall a, String c s <> p +:+ a).
      { intros a H. apply (proj2 (stripPrefix_Some _ _ _)) in H.
        congruence. }
      destruct (JS.splitAtFirst p s) as [[before after]|].
      * destruct IH as [-> Hmin]. split; [reflexivity |].
        intros b a H. destruct b as [|c' b].
        -- now contradiction (Hhead a).
        -- injection H as _ H. cbn. apply Hmin in H. lia.
      * intros b a H. destruct b as [|c' b].
        -- now contradiction (Hhead a).
        -- injection H as _ H. now apply IH in H.
Qed.

(** X24. [String.prototype.replace] with a text pattern, as the compiler
    uses it, changes the first occurrence of the pattern and nothing
    else: for a replacement without dollar sign or brace, either the text
    is some [b] followed by the pattern and some [a], no occurrence of
    the pattern starts before the end of [b], and the result is [b], the
    replacement, [a]; or the pattern does not occur and the text comes
    back unchanged. *)
Theorem replace_changes_the_first_occurrence_only (p v s : string) :
  JS.plain v = true ->
  (exists b a,
     s = b +:+ p +:+ a /\ JS.replace p v s = b +:+ v +:+ a
     /\ forall b' a', s = b' +:+ p +:+ a' ->
          String.length b <= String.length b')
  \/ ((forall b a, s <> b +:+ p +:+ a) /\ JS.replace p v s = s).
Proof.
  intros Hv. pose proof (splitAtFirst_spec p s) as H. unfold JS.replace.
  destruct (JS.splitAtFirst p s) as [[b a]|].
  - left. exists b, a. destruct H as [Hs Hmin].
    rewrite (GetSubstitution_plain _ _ _ _ Hv). now repeat split.
  - right. now split.
Qed.

Lemma replace_changes_the_first_occurrence_only_witness :
  JS.plain "9" = true
  /\ JS.replace "{hour}" "9" "0 5 {hour} * {hour}" = "0 5 9 * {hour}".
Proof.
  split; [reflexivity |].
  destruct (replace_changes_the_first_occurrence_only "{hour}" "9"
              "0 5 {hour} * {hour}" eq_refl)
    as [(b & a & _ & Hr & _) | [_ Hr]]; reflexivity.
Defined.
